(** * user_upload.js: the record pipeline of the CSV user import

    A shallow embedding of [src/user_upload.js]: the helpers [capitalize]
    and [validateEmail], the per-row handler of [processCSVFile], the loader
    [insertDataIntoDB], [connectToDatabase] and [main], followed by the
    properties of the pipeline.

    JavaScript strings are sequences of 16-bit code units; they are lists
    of [N] here.  A property that may be [undefined] is an [option].  Code
    that may throw returns a [completion]; code that logs, talks to the
    database or ends the process runs in the monad [M] over a [World]. *)

From Stdlib Require Import NArith ZArith Bool List Ascii String Lia.
From stdpp Require Import base option list strings gmap.

Import ListNotations.
Local Open Scope N_scope.

Set Default Proof Using "Type".

(** ** Strings *)

Abbreviation jsstring := (list N).

(** A string literal of the source, code unit by code unit. *)
Definition js (s : string) : jsstring :=
  map N_of_ascii (list_ascii_of_string s).
Arguments js : simpl never.

Definition AT : N := 64.    (* '@' *)
Definition DOT : N := 46.   (* '.' *)

(** [str.charAt(i)]: the one-unit string at index [i], or the empty
    string when [i] is out of range. *)
Definition charAt (str : jsstring) (i : nat) : jsstring :=
  match str !! i with
  | Some c => [c]
  | None => []
  end.

(** [str.slice(start)] for a non-negative [start]. *)
Definition slice (str : jsstring) (start : nat) : jsstring :=
  drop start str.

(** [str.includes(c)] for a one-unit search string. *)
Definition includes (str : jsstring) (c : N) : bool :=
  existsb (N.eqb c) str.

(** [str.split(sep)] for a one-unit separator: the pieces between the
    occurrences of [sep]; a string without [sep] is its own single piece,
    the empty string included. *)
Fixpoint split (sep : N) (str : jsstring) : list jsstring :=
  match str with
  | [] => [[]]
  | c :: rest =>
      if c =? sep then [] :: split sep rest
      else match split sep rest with
           | piece :: pieces => (c :: piece) :: pieces
           | [] => [[c]]
           end
  end.

(** ** Case conversion

    [toUpperCase] and [toLowerCase] follow the Unicode case mappings of the
    runtime.  The tables are written out for Basic Latin and the Latin-1
    Supplement (code units 0 to 255), special casing included: the sharp s
    (223) upper-cases to the two units "SS", the micro sign (181) and the
    y with diaeresis (255) upper-case out of the block.  The runtime's
    tables go on beyond the block, and there they are not applied unit
    by unit; here a code unit above 255 is left as it is.  The functions
    are the runtime's on strings of units 0 to 255 ([latin1] below), and
    every property whose proof looks into the tables is stated for such
    strings. *)

Definition upperUnit (c : N) : jsstring :=
  if (97 <=? c) && (c <=? 122) then [c - 32]
  else if c =? 181 then [924]
  else if c =? 223 then [83; 83]
  else if (224 <=? c) && (c <=? 254) && negb (c =? 247) then [c - 32]
  else if c =? 255 then [376]
  else [c].

Definition lowerUnit (c : N) : N :=
  if (65 <=? c) && (c <=? 90) then c + 32
  else if (192 <=? c) && (c <=? 222) && negb (c =? 215) then c + 32
  else c.

Definition toUpperCase (str : jsstring) : jsstring :=
  flat_map upperUnit str.

Definition toLowerCase (str : jsstring) : jsstring :=
  map lowerUnit str.

(** ** Errors and completions *)

Inductive JsError :=
| TypeError (message : jsstring)
| DriverError (message : jsstring)
| StreamError (message : jsstring).

Definition message (e : JsError) : jsstring :=
  match e with
  | TypeError m | DriverError m | StreamError m => m
  end.

(** How a piece of code ends: normally with a value, with an exception
    that an enclosing [try] can catch, with an exception raised where no
    [try] encloses it (the process dies), or by [process.exit]. *)
Inductive completion (A : Type) :=
| Normal (a : A)
| Throw (e : JsError)
| Uncaught (e : JsError)
| Exit (code : Z).
Arguments Normal {A} a.
Arguments Throw {A} e.
Arguments Uncaught {A} e.
Arguments Exit {A} code.

(** Reading a property of [undefined] throws a [TypeError]. *)
Definition cannotRead (prop : string) : JsError :=
  TypeError (js ("Cannot read properties of undefined (reading '" ++ prop ++ "')")).

(** ** Regular expressions

    The fragment of the regular-expression syntax that [emailRegex] is
    written in, closed under what taking derivatives needs. *)

Inductive ClassAtom :=
| ClassSpace              (* \s *)
| ClassUnit (c : N).      (* a literal unit *)

(** [\s]: the WhiteSpace and LineTerminator code units. *)
Definition isWhiteSpace (c : N) : bool :=
  ((9 <=? c) && (c <=? 13)) || (c =? 32) || (c =? 160) || (c =? 5760)
  || ((8192 <=? c) && (c <=? 8202)) || (c =? 8232) || (c =? 8233)
  || (c =? 8239) || (c =? 8287) || (c =? 12288) || (c =? 65279).

Definition atomMatches (a : ClassAtom) (c : N) : bool :=
  match a with
  | ClassSpace => isWhiteSpace c
  | ClassUnit u => c =? u
  end.

Inductive regex :=
| RVoid
| REps
| RUnit (c : N)                        (* a literal, escaped or not *)
| RNotClass (atoms : list ClassAtom)   (* [^...] *)
| RSeq (r1 r2 : regex)
| RAlt (r1 r2 : regex)
| RStar (r : regex)
| RPlus (r : regex).                   (* r+ *)

Fixpoint nullable (r : regex) : bool :=
  match r with
  | RVoid => false
  | REps => true
  | RUnit _ => false
  | RNotClass _ => false
  | RSeq r1 r2 => nullable r1 && nullable r2
  | RAlt r1 r2 => nullable r1 || nullable r2
  | RStar _ => true
  | RPlus r => nullable r
  end.

Fixpoint deriv (c : N) (r : regex) : regex :=
  match r with
  | RVoid => RVoid
  | REps => RVoid
  | RUnit u => if c =? u then REps else RVoid
  | RNotClass atoms =>
      if existsb (fun a => atomMatches a c) atoms then RVoid else REps
  | RSeq r1 r2 =>
      if nullable r1
      then RAlt (RSeq (deriv c r1) r2) (deriv c r2)
      else RSeq (deriv c r1) r2
  | RAlt r1 r2 => RAlt (deriv c r1) (deriv c r2)
  | RStar r => RSeq (deriv c r) (RStar r)
  | RPlus r => RSeq (deriv c r) (RStar r)
  end.

(** [regex.test(str)] for a pattern anchored by [^] and [$] and without
    flags: the whole string has to match. *)
Definition test (r : regex) (str : jsstring) : bool :=
  nullable (fold_left (fun r c => deriv c r) str r).

(** ** validateEmail (lines 157-160) *)

(** [[^\s@]] *)
Definition notSpaceNorAt : regex := RNotClass [ClassSpace; ClassUnit AT].

(** [/^[^\s@]+@[^\s@]+\.[^\s@]+$/] *)
Definition emailRegex : regex :=
  RSeq (RPlus notSpaceNorAt)
    (RSeq (RUnit AT)
       (RSeq (RPlus notSpaceNorAt)
          (RSeq (RUnit DOT) (RPlus notSpaceNorAt)))).

(** [email.split('@')[1].includes('.')], the right operand of [&&]. *)
Definition domainIncludesDot (email : jsstring) : completion bool :=
  match split AT email !! 1%nat with
  | Some domain => Normal (includes domain DOT)
  | None => Throw (cannotRead "includes")
  end.

Definition validateEmail (email : jsstring) : completion bool :=
  if test emailRegex email then domainIncludesDot email else Normal false.

(** ** capitalize (lines 148-150) *)

Definition capitalize (str : option jsstring) : completion jsstring :=
  match str with
  | None => Throw (cannotRead "charAt")
  | Some s => Normal (toUpperCase (charAt s 0) ++ toLowerCase (slice s 1))
  end.

(** ** Data model *)

(** A row as the CSV parser hands it to the ['data'] handler: an object
    keyed by the header names; a column that the line does not have is
    absent from it. *)
Abbreviation RawRow := (gmap string jsstring).

(** The object [{ name, surname, email }] pushed to [results]. *)
Record UserRecord := mkUser {
  name : jsstring;
  surname : jsstring;
  email : jsstring;
}.

(** A statement sent over the connection, with its bound parameters. *)
Record Statement := mkStatement {
  sql : string;
  params : list jsstring;
}.

Inductive JsValue :=
| VString (s : jsstring)
| VUsers (users : list UserRecord).

Inductive ConsoleEntry :=
| ConsoleLog (args : list JsValue)
| ConsoleError (args : list JsValue).

(** What the parser's stream does after its last row: it ends, the parser
    emits ['error'] (the handler of line 137 is attached to it), or the
    file stream under it fails, which nothing handles.

    The parser emits a row when it has read the line break that ends its
    line.  A last line without a line break is emitted only when the
    input has ended and the parser is flushed: [lastRowFlushed] says that
    the last of [rows] is such a row.  It matters only for a stream that
    ends. *)
Inductive StreamEnd :=
| Ended
| ParserFailed (e : JsError)
| ReadFailed (e : JsError).

Record CsvStream := mkStream {
  rows : list RawRow;
  ending : StreamEnd;
  lastRowFlushed : bool;
}.

(** A list as what comes before its last element, and that element. *)
Fixpoint unsnoc {A : Type} (l : list A) : option (list A * A) :=
  match l with
  | [] => None
  | x :: rest =>
      match unsnoc rest with
      | None => Some ([], x)
      | Some (before, z) => Some (x :: before, z)
      end
  end.

(** The rows emitted while the file is read and the row emitted by the
    flush, when there is one. *)
Definition flushedRow (stream : CsvStream) : option (list RawRow * RawRow) :=
  match ending stream with
  | Ended => if lastRowFlushed stream then unsnoc (rows stream) else None
  | _ => None
  end.

Record ConnectionConfig := mkConfig {
  host : jsstring;
  port : N;
  user : jsstring;
  password : jsstring;
  database : jsstring;
}.

(** The parsed command line (lines 16-50). *)
Module argv.
Record t := mk {
  file : option jsstring;
  create_table : bool;
  dry_run : bool;
  u : jsstring;
  p : jsstring;
  h : jsstring;
  port : N;
}.
End argv.

(** The MySQL server as the driver shows it: whether it accepts a
    connection, and what a statement does to its state; [Some e] is the
    error the driver's promise rejects with. *)
Class MySQL (DB : Type) := {
  createConnection : ConnectionConfig -> DB -> option JsError;
  perform : Statement -> DB -> option JsError * DB;
}.

(** ** The world and its monad *)

Record World (DB : Type) := mkWorld {
  console : list ConsoleEntry;      (* what was printed, oldest first *)
  server : DB;                      (* the state of the database server *)
  issued : list Statement;          (* the statements sent, in order *)
  ended : bool;                     (* connection.end() was called *)
  csvFiles : jsstring -> CsvStream; (* the stream read from a path *)
}.
Arguments mkWorld {DB}.
Arguments console {DB}.
Arguments server {DB}.
Arguments issued {DB}.
Arguments ended {DB}.
Arguments csvFiles {DB}.

Definition M (DB A : Type) : Type := World DB -> completion A * World DB.

Definition ret {DB A} (a : A) : M DB A := fun w => (Normal a, w).

Definition bind {DB A B} (m : M DB A) (k : A -> M DB B) : M DB B :=
  fun w =>
    match m w with
    | (Normal a, w') => k a w'
    | (Throw e, w') => (Throw e, w')
    | (Uncaught e, w') => (Uncaught e, w')
    | (Exit code, w') => (Exit code, w')
    end.

Notation "x <- m ;; k" := (bind m (fun x => k))
  (at level 100, m at next level, right associativity).
Notation "m ;;; k" := (bind m (fun _ => k))
  (at level 100, right associativity).

(** A pure computation that may throw, run in [M]. *)
Definition lift {DB A} (c : completion A) : M DB A := fun w => (c, w).

(** [try { body } catch (error) { handler }] *)
Definition tryCatch {DB A} (body : M DB A) (handler : JsError -> M DB A) : M DB A :=
  fun w =>
    match body w with
    | (Throw e, w') => handler e w'
    | other => other
    end.

(** [try { body } finally { finalizer }]: the finalizer runs when the body
    returns or throws, and the body's completion stands unless the
    finalizer ends otherwise. *)
Definition tryFinally {DB A} (body : M DB A) (finalizer : M DB unit) : M DB A :=
  fun w =>
    match body w with
    | (Normal a, w') => (_ <- finalizer ;; ret a) w'
    | (Throw e, w') => (finalizer ;;; lift (Throw e)) w'
    | other => other
    end.

(** A line is added to the console; nothing else changes. *)
Definition print {DB} (entry : ConsoleEntry) (w : World DB) : World DB :=
  mkWorld (console w ++ [entry]) (server w) (issued w) (ended w) (csvFiles w).

Definition consoleLog {DB} (args : list JsValue) : M DB unit :=
  fun w => (Normal tt, print (ConsoleLog args) w).

Definition consoleError {DB} (args : list JsValue) : M DB unit :=
  fun w => (Normal tt, print (ConsoleError args) w).

(** [process.exit(code)] *)
Definition processExit {DB A} (code : Z) : M DB A := fun w => (Exit code, w).

Section Program.
Context {DB : Type} `{MySQL DB}.

(** [connection.query] and [connection.execute]: the statement is sent,
    and the promise resolves or rejects as the server decides. *)
Definition execute (query : string) (values : list jsstring) : M DB unit :=
  fun w =>
    let stmt := mkStatement query values in
    let '(outcome, db) := perform stmt (server w) in
    (match outcome with
     | None => Normal tt
     | Some e => Throw e
     end,
     mkWorld (console w) db (issued w ++ [stmt]) (ended w) (csvFiles w)).

(** [connection.end()] *)
Definition connectionEnd : M DB unit :=
  fun w => (Normal tt,
            mkWorld (console w) (server w) (issued w) true (csvFiles w)).

(** ** connectToDatabase (lines 59-73) *)

Definition connectToDatabase (args : argv.t) : M DB unit :=
  tryCatch
    (fun w =>
       let config := mkConfig (argv.h args) (argv.port args) (argv.u args)
                              (argv.p args) (js "user_upload_db") in
       match createConnection config (server w) with
       | None => (Normal tt, w)
       | Some e => (Throw e, w)
       end)
    (fun error =>
       consoleError [VString (js "Error connecting to the database:");
                     VString (message error)] ;;;
       processExit 1%Z).

(** ** createUsersTable (lines 83-98) *)

Definition createTableQuery : string := "
      CREATE TABLE IF NOT EXISTS users (
        id INT AUTO_INCREMENT PRIMARY KEY,
        name VARCHAR(255),
        surname VARCHAR(255),
        email VARCHAR(255) UNIQUE
      );
    ".

Definition createUsersTable : M DB unit :=
  tryCatch
    (execute createTableQuery [] ;;;
     consoleLog [VString (js "Users table created/rebuilt successfully.")])
    (fun error =>
       consoleError [VString (js "Error creating table:");
                     VString (message error)]).

(** ** insertDataIntoDB (lines 168-178) *)

Definition insertQuery : string :=
  "INSERT INTO users (name, surname, email) VALUES (?, ?, ?)".

(** One turn of the [for ... of] loop. *)
Definition insertUser (user : UserRecord) : M DB unit :=
  tryCatch
    (execute insertQuery [name user; surname user; email user])
    (fun error =>
       consoleError [VString (js "Error inserting user: " ++ email user ++ js ".");
                     VString (message error)]).

Fixpoint insertEach (users : list UserRecord) : M DB unit :=
  match users with
  | [] => ret tt
  | user :: rest => insertUser user ;;; insertEach rest
  end.

Definition insertDataIntoDB (users : list UserRecord) : M DB unit :=
  insertEach users ;;;
  consoleLog [VString (js "Data inserted successfully.")].

(** ** processCSVFile (lines 108-142) *)

(** The ['data'] handler (lines 113-123); [results] is the array it pushes
    to, passed in and handed back. *)
Definition onData (data : RawRow) (results : list UserRecord)
  : M DB (list UserRecord) :=
  name <- lift (capitalize (data !! "name")) ;;
  surname <- lift (capitalize (data !! "surname")) ;;
  email <- lift (match data !! "email" with
                 | Some s => Normal (toLowerCase s)
                 | None => Throw (cannotRead "toLowerCase")
                 end) ;;
  valid <- lift (validateEmail email) ;;
  if valid : bool then ret (results ++ [mkUser name surname email])
  else
    consoleError [VString (js "Invalid email format: " ++ email)] ;;;
    ret results.

(** The ['data'] events for the rows emitted while the file is read, in
    order.  No [try] encloses the handler there, so an exception it
    throws is uncaught and the rows after it are never seen. *)
Fixpoint onRows (stream : list RawRow) (results : list UserRecord)
  : M DB (list UserRecord) :=
  match stream with
  | [] => ret results
  | data :: rest =>
      fun w =>
        match onData data results w with
        | (Normal results', w') => onRows rest results' w'
        | (Throw e, w') => (Uncaught e, w')
        | other => other
        end
  end.

(** The ['end'] handler (lines 124-136). *)
Definition onEnd (dryRun : bool) (results : list UserRecord) : M DB unit :=
  if dryRun then
    consoleLog [VString (js "Dry run mode: No data inserted into the database.")] ;;;
    consoleLog [VUsers results]
  else
    tryCatch (insertDataIntoDB results)
      (fun error =>
         consoleError [VString (js "Error during data insertion:");
                       VString (message error)]).

(** The ['error'] handler (lines 137-140): log and reject. *)
Definition onError (error : JsError) : M DB unit :=
  consoleError [VString (js "Error reading the CSV file:");
                VString (message error)] ;;;
  lift (Throw error).

(** The ['data'] event for the row emitted by the flush.  The stream
    runs its flush inside a [try]: an exception of the handler is caught
    there and becomes the parser's ['error'], which the handler of line
    137 receives. *)
Definition onFlushedRow (data : RawRow) (results : list UserRecord)
  : M DB (list UserRecord) :=
  tryCatch (onData data results) (fun error => onError error ;;; ret results).

(** The rows are handled, then the stream's last event; [accumulated] is
    [results] as it stands when the rows are done. *)
Definition accumulated (path : jsstring) : M DB (list UserRecord) :=
  fun w =>
    match flushedRow (csvFiles w path) with
    | Some (before, data) =>
        (results <- onRows before [] ;; onFlushedRow data results) w
    | None => onRows (rows (csvFiles w path)) [] w
    end.

Definition processCSVFile (path : jsstring) (dryRun : bool) : M DB unit :=
  results <- accumulated path ;;
  fun w =>
    match ending (csvFiles w path) with
    | Ended => onEnd dryRun results w
    | ParserFailed e => onError e w
    | ReadFailed e => (Uncaught e, w)
    end.

(** ** main (lines 188-202) *)

(** A string is truthy unless it is empty; [undefined] is falsy. *)
Definition truthy (v : option jsstring) : bool :=
  match v with
  | Some (_ :: _) => true
  | _ => false
  end.

Definition main (args : argv.t) : M DB unit :=
  connectToDatabase args ;;;
  tryFinally
    (if argv.create_table args then createUsersTable
     else if truthy (argv.file args) then
       processCSVFile (default [] (argv.file args)) (argv.dry_run args)
     else
       consoleLog [VString (js "Please provide the necessary command-line arguments. Use --help for more information.")])
    connectionEnd.

End Program.

(** ** A server holding the table of [createTableQuery]

    The rows of [users] in insertion order (the surrogate [id] is left
    out).  [email] is UNIQUE: an insert whose email is already in the table
    is refused with the server's duplicate-entry error, and changes
    nothing.  The server accepts every connection, does nothing on
    CREATE TABLE IF NOT EXISTS, the table being there, and refuses any
    other statement. *)

Abbreviation UsersTable := (list UserRecord).

Definition duplicateEntry (key : jsstring) : JsError :=
  DriverError (js "Duplicate entry '" ++ key ++ js "' for key 'users.email'").

#[export] Instance usersTable : MySQL UsersTable := {|
  createConnection _ _ := None;
  perform stmt table :=
    if String.eqb (sql stmt) insertQuery then
      match params stmt with
      | [n; s; e] =>
          if bool_decide (e ∈ map email table)
          then (Some (duplicateEntry e), table)
          else (None, table ++ [mkUser n s e])
      | _ => (Some (DriverError (js "Incorrect arguments to mysqld_stmt_execute")), table)
      end
    else if String.eqb (sql stmt) createTableQuery then (None, table)
    else (Some (DriverError (js "You have an error in your SQL syntax")), table)
|}.

(** * Specification *)

(** ** The shape of an email, in the words of the specification *)

(** A unit that is neither whitespace nor ['@']. *)
Definition plain (c : N) : Prop := isWhiteSpace c = false /\ c <> AT.

(** A non-empty run of such units. *)
Definition label (s : jsstring) : Prop := s <> [] /\ Forall plain s.

(** [local-part@domain.tld]: the local part and the domain hold no
    whitespace and no ['@'], and the domain has a ['.'] with something on
    either side. *)
Definition emailShape (email : jsstring) : Prop :=
  exists loc dom tld,
    email = loc ++ AT :: dom ++ DOT :: tld /\ label loc /\ label dom /\ label tld.

(** The substring after the first ['@'] contains a ['.']. *)
Definition dotAfterFirstAt (email : jsstring) : Prop :=
  exists before after,
    email = before ++ AT :: after /\ (AT ∉ before) /\ (DOT ∈ after).

(** ** Normalization, in the words of the specification *)

(** First character upper-cased, every subsequent character lower-cased. *)
Definition capitalized (s : jsstring) : jsstring :=
  match s with
  | [] => []
  | c :: rest => toUpperCase [c] ++ toLowerCase rest
  end.

(** The normalized form of a row with the given fields. *)
Definition normalized (n s e : jsstring) : UserRecord :=
  mkUser (capitalized n) (capitalized s) (toLowerCase e).

(** The line that reports a rejected email. *)
Definition invalidEmailFormat (e : jsstring) : ConsoleEntry :=
  ConsoleError [VString (js "Invalid email format: " ++ e)].

(** A world to run examples in: an empty table, a silent console, no
    files. *)
Definition emptyWorld : World UsersTable :=
  mkWorld [] [] [] false (fun _ => mkStream [] Ended false).

(** ** Example rows *)

Definition row (n s e : jsstring) : RawRow :=
  {[ "name" := n; "surname" := s; "email" := e ]}.

(** A line of the file with the email column missing. *)
Definition rowWithoutEmail (n s : jsstring) : RawRow :=
  {[ "name" := n; "surname" := s ]}.

(** ** The pipeline, in the words of the specification *)

(** A row has the three columns. *)
Definition wellFormed (data : RawRow) : Prop :=
  is_Some (data !! "name") /\ is_Some (data !! "surname") /\
  is_Some (data !! "email").

Definition field (data : RawRow) (column : string) : jsstring :=
  default [] (data !! column).

(** The email of a row as the validator sees it. *)
Definition rowEmail (data : RawRow) : jsstring :=
  toLowerCase (field data "email").

(** The row's email passes validation. *)
Definition passes (data : RawRow) : bool :=
  match validateEmail (rowEmail data) with
  | Normal b => b
  | _ => false
  end.

(** The normalized form of a row. *)
Definition normalizedRow (data : RawRow) : UserRecord :=
  normalized (field data "name") (field data "surname") (field data "email").

(** Lines are added to the console; nothing else changes. *)
Definition printAll {DB} (entries : list ConsoleEntry) (w : World DB) : World DB :=
  mkWorld (console w ++ entries) (server w) (issued w) (ended w) (csvFiles w).

(** The insert the loader sends for a record. *)
Definition insertStatement (user : UserRecord) : Statement :=
  mkStatement insertQuery [name user; surname user; email user].

(** The line that reports a failed insert. *)
Definition insertFailed (user : UserRecord) (error : JsError) : ConsoleEntry :=
  ConsoleError [VString (js "Error inserting user: " ++ email user ++ js ".");
                VString (message error)].

Definition dataInserted : ConsoleEntry :=
  ConsoleLog [VString (js "Data inserted successfully.")].

Definition dryRunNotice : ConsoleEntry :=
  ConsoleLog [VString (js "Dry run mode: No data inserted into the database.")].

Definition connectionFailed (error : JsError) : ConsoleEntry :=
  ConsoleError [VString (js "Error connecting to the database:");
                VString (message error)].

Section Loader.
Context {DB : Type} `{MySQL DB}.

(** The server after the inserts of the records, one after the other,
    each on the state the one before left. *)
Fixpoint serverAfter (users : list UserRecord) (db : DB) : DB :=
  match users with
  | [] => db
  | user :: rest => serverAfter rest (snd (perform (insertStatement user) db))
  end.

(** The failures among those inserts, each with its record. *)
Fixpoint insertFailures (users : list UserRecord) (db : DB) : list ConsoleEntry :=
  match users with
  | [] => []
  | user :: rest =>
      match fst (perform (insertStatement user) db) with
      | Some error => [insertFailed user error]
      | None => []
      end ++ insertFailures rest (snd (perform (insertStatement user) db))
  end.

End Loader.

(** A server that cannot be reached. *)
Definition unreachable : MySQL unit := {|
  createConnection _ _ := Some (DriverError (js "connect ECONNREFUSED 127.0.0.1:3306"));
  perform _ db := (Some (DriverError (js "Can't add new command when connection is in closed state")), db)
|}.

(** ** Example worlds *)

(** A file of three lines, the second with a bad email. *)
Definition threeRows : list RawRow :=
  [row (js "jane") (js "DOE") (js "Jane.Doe@EXAMPLE.com");
   row (js "bob") (js "stone") (js "not-an-email");
   row (js "aNN") (js "lee") (js "ann@lee.org")].

Definition threeRowsWorld : World UsersTable :=
  mkWorld [] [] [] false (fun _ => mkStream threeRows Ended false).

Definition unreachableWorld : World unit :=
  mkWorld [] tt [] false (fun _ => mkStream threeRows Ended false).

Definition fileArgs : argv.t :=
  argv.mk (Some (js "users.csv")) false false (js "root") (js "secret")
          (js "localhost") 3306.

(** ** The rest of the program, in the same words *)

(** The configuration that [connectToDatabase] builds from the command
    line. *)
Definition connectionOf (args : argv.t) : ConnectionConfig :=
  mkConfig (argv.h args) (argv.port args) (argv.u args) (argv.p args)
           (js "user_upload_db").

(** The statement that [createUsersTable] sends. *)
Definition createStatement : Statement := mkStatement createTableQuery [].

Definition tableCreated : ConsoleEntry :=
  ConsoleLog [VString (js "Users table created/rebuilt successfully.")].

Definition tableNotCreated (error : JsError) : ConsoleEntry :=
  ConsoleError [VString (js "Error creating table:"); VString (message error)].

Definition csvNotRead (error : JsError) : ConsoleEntry :=
  ConsoleError [VString (js "Error reading the CSV file:");
                VString (message error)].

Definition usage : ConsoleEntry :=
  ConsoleLog [VString (js "Please provide the necessary command-line arguments. Use --help for more information.")].

(** The connection has been ended; nothing else changes. *)
Definition closed {DB} (w : World DB) : World DB :=
  mkWorld (console w) (server w) (issued w) true (csvFiles w).

(** The records of a stream and the lines for the rows it rejects. *)
Definition records (stream : list RawRow) : list UserRecord :=
  map normalizedRow (List.filter passes stream).

Definition rejections (stream : list RawRow) : list ConsoleEntry :=
  map (fun data => invalidEmailFormat (rowEmail data))
      (List.filter (fun data => negb (passes data)) stream).

(** How often a unit occurs in a string. *)
Definition occurrences (c : N) (s : jsstring) : nat :=
  length (List.filter (N.eqb c) s).

(** All units are in Basic Latin. *)
Definition basicLatin (s : jsstring) : Prop := Forall (fun c => c < 128) s.

Definition lowerLetter (c : N) : Prop := 97 <= c <= 122.
Definition upperLetter (c : N) : Prop := 65 <= c <= 90.

(** The first character of the string, if there is one, upper-cases to a
    single character. *)
Definition singleInitial (s : jsstring) : Prop :=
  (length (toUpperCase (charAt s 0)) <= 1)%nat.

(** [pieces.join(sep)] for a one-unit separator. *)
Fixpoint join (sep : N) (pieces : list jsstring) : jsstring :=
  match pieces with
  | [] => []
  | [piece] => piece
  | piece :: rest => piece ++ sep :: join sep rest
  end.

(** Command lines for the three modes. *)
Definition createArgs : argv.t :=
  argv.mk (Some (js "users.csv")) true false (js "root") (js "secret")
          (js "localhost") 3306.

Definition noArgs : argv.t :=
  argv.mk (Some []) false false (js "root") (js "secret") (js "localhost") 3306.

Definition dryArgs : argv.t :=
  argv.mk (Some (js "users.csv")) false true (js "root") (js "secret")
          (js "localhost") 3306.

(** The three lines again, the parser failing after them. *)
Definition parserFailedWorld : World UsersTable :=
  mkWorld [] [] [] false
          (fun _ => mkStream threeRows (ParserFailed (StreamError (js "Row length does not match headers"))) false).

(** The three lines again, the file stream failing after them. *)
Definition readFailedWorld : World UsersTable :=
  mkWorld [] [] [] false
          (fun _ => mkStream threeRows (ReadFailed (StreamError (js "EIO: i/o error, read"))) false).

(** A file whose second line has no email. *)
Definition shortLineRows : list RawRow :=
  [row (js "bob") (js "stone") (js "not-an-email");
   rowWithoutEmail (js "jane") (js "doe");
   row (js "aNN") (js "lee") (js "ann@lee.org")].

(** A line read under a header that has no [name] column. *)
Definition rowWithoutName (s e : jsstring) : RawRow :=
  {[ "surname" := s; "email" := e ]}.

(** The same file cut after its second line, which has no line break:
    the parser emits that line when it is flushed. *)
Definition shortLastLineWorld : World UsersTable :=
  mkWorld [] [] [] false
          (fun _ => mkStream [row (js "bob") (js "stone") (js "not-an-email");
                              rowWithoutEmail (js "jane") (js "doe")]
                             Ended true).

(** The exception of the handler on a row that lacks a column: the first
    read that fails is [charAt] when [name] or [surname] is missing, and
    [toLowerCase] when only [email] is. *)
Definition missingColumn (data : RawRow) : JsError :=
  match data !! "name", data !! "surname" with
  | Some _, Some _ => cannotRead "toLowerCase"
  | _, _ => cannotRead "charAt"
  end.

(** All units are in Basic Latin or the Latin-1 Supplement, where the
    case tables are written out. *)
Definition latin1 (s : jsstring) : Prop := Forall (fun c => c <= 255) s.

Definition shortLineWorld : World UsersTable :=
  mkWorld [] [] [] false (fun _ => mkStream shortLineRows Ended false).

(** * Properties *)

(** Case analysis on the comparisons of code units in sight. *)
Ltac case_units :=
  repeat match goal with
    | |- context [?a <=? ?b] => destruct (N.leb_spec a b)
    | |- context [?a =? ?b] => destruct (N.eqb_spec a b)
    | H : context [?a <=? ?b] |- _ => destruct (N.leb_spec a b)
    | H : context [?a =? ?b] |- _ => destruct (N.eqb_spec a b)
    end; simpl in *.


(** ** The language of a regular expression *)

Inductive Matches : regex -> jsstring -> Prop :=
| MEps : Matches REps []
| MUnit c : Matches (RUnit c) [c]
| MNotClass atoms c :
    existsb (fun a => atomMatches a c) atoms = false ->
    Matches (RNotClass atoms) [c]
| MSeq r1 r2 s1 s2 :
    Matches r1 s1 -> Matches r2 s2 -> Matches (RSeq r1 r2) (s1 ++ s2)
| MAltL r1 r2 s : Matches r1 s -> Matches (RAlt r1 r2) s
| MAltR r1 r2 s : Matches r2 s -> Matches (RAlt r1 r2) s
| MStarNil r : Matches (RStar r) []
| MStarCons r s1 s2 :
    Matches r s1 -> Matches (RStar r) s2 -> Matches (RStar r) (s1 ++ s2)
| MPlus r s1 s2 :
    Matches r s1 -> Matches (RStar r) s2 -> Matches (RPlus r) (s1 ++ s2).

Create HintDb regex.
#[local] Hint Constructors Matches : regex.

Lemma void_inv s : ~ Matches RVoid s.
Proof. inversion 1. Qed.

Lemma eps_inv s : Matches REps s -> s = [].
Proof. inversion 1; reflexivity. Qed.

Lemma unit_inv c s : Matches (RUnit c) s -> s = [c].
Proof. inversion 1; reflexivity. Qed.

Lemma notclass_inv atoms s :
  Matches (RNotClass atoms) s ->
  exists c, s = [c] /\ existsb (fun a => atomMatches a c) atoms = false.
Proof. inversion 1; subst; eauto. Qed.

Lemma seq_inv r1 r2 s :
  Matches (RSeq r1 r2) s ->
  exists s1 s2, s = s1 ++ s2 /\ Matches r1 s1 /\ Matches r2 s2.
Proof. inversion 1; subst; eauto 6. Qed.

Lemma alt_inv r1 r2 s : Matches (RAlt r1 r2) s -> Matches r1 s \/ Matches r2 s.
Proof. inversion 1; subst; auto. Qed.

Lemma plus_inv r s :
  Matches (RPlus r) s ->
  exists s1 s2, s = s1 ++ s2 /\ Matches r s1 /\ Matches (RStar r) s2.
Proof. inversion 1; subst; eauto 6. Qed.

Lemma nullable_spec r : nullable r = true <-> Matches r [].
Proof.
  induction r; simpl; split; intros Hm; try discriminate; eauto with regex.
  - destruct (void_inv _ Hm).
  - apply unit_inv in Hm. discriminate.
  - apply notclass_inv in Hm as (c & E & _). discriminate.
  - apply andb_true_iff in Hm as [H1 H2].
    apply (MSeq _ _ [] []); [apply IHr1 | apply IHr2]; assumption.
  - apply seq_inv in Hm as (s1 & s2 & E & H1 & H2).
    symmetry in E. apply app_eq_nil in E as [-> ->].
    apply andb_true_iff; split; [apply IHr1 | apply IHr2]; assumption.
  - apply orb_true_iff in Hm as [H1 | H2];
      [apply MAltL, IHr1 | apply MAltR, IHr2]; assumption.
  - apply orb_true_iff.
    apply alt_inv in Hm as [H1 | H2]; [left; apply IHr1 | right; apply IHr2]; assumption.
  - apply (MPlus _ [] []); [apply IHr; assumption | constructor].
  - apply plus_inv in Hm as (s1 & s2 & E & H1 & H2).
    symmetry in E. apply app_eq_nil in E as [-> ->]. apply IHr; assumption.
Qed.

(** A non-empty match of [r*] starts with a non-empty match of [r]. *)
Lemma star_cons_inv r c s :
  Matches (RStar r) (c :: s) ->
  exists s1 s2, s = s1 ++ s2 /\ Matches r (c :: s1) /\ Matches (RStar r) s2.
Proof.
  intros Hm. remember (RStar r) as r' eqn:Er. remember (c :: s) as s' eqn:Es.
  induction Hm as [| | | | | | |r0 s1 s2 H1 _ H2 IH2|]; try discriminate.
  injection Er as ->. destruct s1 as [|c1 s1]; simpl in Es.
  - apply IH2; auto.
  - injection Es as -> <-. eauto.
Qed.

Lemma deriv_sound c r : forall s, Matches (deriv c r) s -> Matches r (c :: s).
Proof.
  induction r as [| |u|atoms|r1 IH1 r2 IH2|r1 IH1 r2 IH2|r IH|r IH];
    simpl; intros s Hm.
  - destruct (void_inv _ Hm).
  - destruct (void_inv _ Hm).
  - destruct (N.eqb_spec c u) as [->|];
      [apply eps_inv in Hm as ->; constructor | destruct (void_inv _ Hm)].
  - destruct (existsb _ atoms) eqn:E;
      [destruct (void_inv _ Hm) | apply eps_inv in Hm as ->; constructor; assumption].
  - destruct (nullable r1) eqn:E.
    + apply alt_inv in Hm as [Hm | Hm].
      * apply seq_inv in Hm as (s1 & s2 & -> & H1 & H2).
        apply (MSeq _ _ (c :: s1)); auto.
      * apply (MSeq _ _ []); [apply nullable_spec; assumption | auto].
    + apply seq_inv in Hm as (s1 & s2 & -> & H1 & H2).
      apply (MSeq _ _ (c :: s1)); auto.
  - apply alt_inv in Hm as [Hm | Hm]; [apply MAltL | apply MAltR]; auto.
  - apply seq_inv in Hm as (s1 & s2 & -> & H1 & H2).
    apply (MStarCons _ (c :: s1)); auto.
  - apply seq_inv in Hm as (s1 & s2 & -> & H1 & H2).
    apply (MPlus _ (c :: s1)); auto.
Qed.

Lemma deriv_complete c r : forall s, Matches r (c :: s) -> Matches (deriv c r) s.
Proof.
  induction r as [| |u|atoms|r1 IH1 r2 IH2|r1 IH1 r2 IH2|r IH|r IH];
    simpl; intros s Hm.
  - destruct (void_inv _ Hm).
  - apply eps_inv in Hm. discriminate.
  - apply unit_inv in Hm. injection Hm as -> ->. rewrite N.eqb_refl. constructor.
  - apply notclass_inv in Hm as (c' & E & Hc). injection E as -> ->.
    rewrite Hc. constructor.
  - apply seq_inv in Hm as (s1 & s2 & E & H1 & H2).
    destruct s1 as [|c1 s1]; simpl in E.
    + subst s2. apply nullable_spec in H1. rewrite H1. apply MAltR; auto.
    + injection E as -> ->. destruct (nullable r1).
      * apply MAltL, MSeq; auto.
      * apply MSeq; auto.
  - apply alt_inv in Hm as [Hm | Hm]; [apply MAltL | apply MAltR]; auto.
  - apply star_cons_inv in Hm as (s1 & s2 & -> & H1 & H2). apply MSeq; auto.
  - apply plus_inv in Hm as (s1 & s2 & E & H1 & H2).
    destruct s1 as [|c1 s1]; simpl in E.
    + subst s2. apply star_cons_inv in H2 as (s1 & s2 & -> & H1' & H2').
      apply MSeq; auto.
    + injection E as -> ->. apply MSeq; auto.
Qed.

(** [test] decides membership in the language. *)
Lemma test_spec str : forall r, test r str = true <-> Matches r str.
Proof.
  unfold test. induction str as [|c str IH]; intros r; simpl.
  - apply nullable_spec.
  - rewrite IH. split; [apply deriv_sound | apply deriv_complete].
Qed.

(** ** The email pattern *)

Lemma notSpaceNorAt_plain c :
  existsb (fun a => atomMatches a c) [ClassSpace; ClassUnit AT] = false <-> plain c.
Proof.
  unfold plain; simpl. rewrite orb_false_r, orb_false_iff, N.eqb_neq. tauto.
Qed.

Lemma star_plain s : Matches (RStar notSpaceNorAt) s <-> Forall plain s.
Proof.
  split.
  - intros Hm. remember (RStar notSpaceNorAt) as r eqn:Er.
    induction Hm as [| | | | | | |r0 s1 s2 H1 _ H2 IH2|]; try discriminate.
    + constructor.
    + injection Er as ->. apply notclass_inv in H1 as (c & -> & Hc).
      constructor; [apply notSpaceNorAt_plain; assumption | auto].
  - induction 1 as [|c s Hc _ IH]; [constructor|].
    apply (MStarCons _ [c]); [constructor; apply notSpaceNorAt_plain|]; assumption.
Qed.

Lemma plus_plain s : Matches (RPlus notSpaceNorAt) s <-> label s.
Proof.
  unfold label. split.
  - intros Hm. apply plus_inv in Hm as (s1 & s2 & -> & H1 & H2).
    apply notclass_inv in H1 as (c & -> & Hc). split; [discriminate|].
    constructor; [apply notSpaceNorAt_plain; assumption | apply star_plain; assumption].
  - intros [Hne Hall]. destruct Hall as [|c s Hc Hs]; [contradiction|].
    apply (MPlus _ [c]); [constructor; apply notSpaceNorAt_plain | apply star_plain];
      assumption.
Qed.

(** The pattern matches exactly the strings of the specified shape. *)
Lemma emailRegex_shape email : test emailRegex email = true <-> emailShape email.
Proof.
  rewrite test_spec. unfold emailRegex, emailShape. split.
  - intros Hm.
    apply seq_inv in Hm as (loc & s1 & -> & Hloc & Hm).
    apply seq_inv in Hm as (at' & s2 & -> & Hat & Hm).
    apply seq_inv in Hm as (dom & s3 & -> & Hdom & Hm).
    apply seq_inv in Hm as (dot' & tld & -> & Hdot & Htld).
    apply unit_inv in Hat as ->. apply unit_inv in Hdot as ->.
    exists loc, dom, tld. rewrite <- !plus_plain. auto.
  - intros (loc & dom & tld & -> & Hloc & Hdom & Htld).
    apply plus_plain in Hloc, Hdom, Htld.
    apply MSeq; [assumption|]. apply (MSeq _ _ [AT]); [constructor|].
    apply MSeq; [assumption|]. apply (MSeq _ _ [DOT]); [constructor | assumption].
Qed.

(** ** split and includes *)

Lemma split_nonempty sep str : split sep str <> [].
Proof.
  destruct str as [|c rest]; simpl; [discriminate|].
  destruct (c =? sep); [discriminate|]. destruct (split sep rest); discriminate.
Qed.

Lemma split_no_sep sep str : sep ∉ str -> split sep str = [str].
Proof.
  induction str as [|c rest IH]; intros Hn; simpl; [reflexivity|].
  apply not_elem_of_cons in Hn as [Hc Hrest].
  destruct (N.eqb_spec c sep) as [->|_]; [contradiction|].
  rewrite IH by assumption. reflexivity.
Qed.

Lemma split_at_first sep before after :
  sep ∉ before ->
  split sep (before ++ sep :: after) = before :: split sep after.
Proof.
  induction before as [|c rest IH]; intros Hn; simpl.
  - rewrite N.eqb_refl. reflexivity.
  - apply not_elem_of_cons in Hn as [Hc Hrest].
    destruct (N.eqb_spec c sep) as [->|_]; [contradiction|].
    rewrite IH by assumption. reflexivity.
Qed.

Lemma includes_spec str c : includes str c = true <-> c ∈ str.
Proof.
  unfold includes. rewrite existsb_exists. split.
  - intros (x & Hx & E). apply N.eqb_eq in E as ->. apply list_elem_of_In; assumption.
  - intros Hc. exists c. rewrite N.eqb_refl. split; [apply list_elem_of_In; assumption | reflexivity].
Qed.

Lemma includes_spec_false str c : includes str c = false -> c ∉ str.
Proof.
  intros E Hc. apply includes_spec in Hc. rewrite Hc in E. discriminate.
Qed.

Lemma plain_not_at s : Forall plain s -> AT ∉ s.
Proof.
  intros Hall Hin. rewrite Forall_forall in Hall.
  destruct (Hall _ Hin) as [_ Hne]. contradiction.
Qed.

Lemma plain_dot : plain DOT.
Proof. split; [reflexivity | discriminate]. Qed.

(** A string of the shape has exactly one ['@']: [split] cuts it into the
    local part and the domain. *)
Lemma shape_split email :
  emailShape email ->
  exists loc domain,
    email = loc ++ AT :: domain /\ (AT ∉ loc) /\ (DOT ∈ domain) /\
    split AT email = [loc; domain].
Proof.
  intros (loc & dom & tld & -> & [_ Hloc] & [_ Hdom] & [_ Htld]).
  exists loc, (dom ++ DOT :: tld).
  assert (Hn : AT ∉ dom ++ DOT :: tld).
  { apply plain_not_at, Forall_app; split; [assumption|].
    constructor; [apply plain_dot | assumption]. }
  split; [reflexivity|]. split; [apply plain_not_at; assumption|].
  split; [apply elem_of_app; right; left|].
  rewrite split_at_first by (apply plain_not_at; assumption).
  rewrite split_no_sep by assumption. reflexivity.
Qed.

(** ** validateEmail *)

(** The second operand never decides: the validator returns what the
    pattern says. *)
Lemma validateEmail_test email : validateEmail email = Normal (test emailRegex email).
Proof.
  unfold validateEmail. destruct (test emailRegex email) eqn:E; [|reflexivity].
  apply emailRegex_shape, shape_split in E as (loc & domain & _ & _ & Hdot & Hsplit).
  unfold domainIncludesDot. rewrite Hsplit. simpl.
  apply includes_spec in Hdot. rewrite Hdot. reflexivity.
Qed.

Lemma shape_dotAfterFirstAt email : emailShape email -> dotAfterFirstAt email.
Proof.
  intros Hs. apply shape_split in Hs as (loc & domain & E & Hloc & Hdot & _).
  exists loc, domain. auto.
Qed.

(** ** The ['data'] handler *)

Lemma capitalize_capitalized s : capitalize (Some s) = Normal (capitalized s).
Proof. destruct s as [|c rest]; reflexivity. Qed.

Section Handler.
Context {DB : Type} `{MySQL DB}.

(** A row with its three columns is accepted or rejected on its
    lower-cased email, and never throws. *)
Lemma onData_fields (data : RawRow) n s e results (w : World DB) :
  data !! "name" = Some n -> data !! "surname" = Some s -> data !! "email" = Some e ->
  onData data results w =
    if test emailRegex (toLowerCase e)
    then (Normal (results ++ [normalized n s e]), w)
    else (Normal results, print (invalidEmailFormat (toLowerCase e)) w).
Proof.
  intros Hn Hs He. unfold onData, bind, lift. rewrite Hn, Hs, He.
  rewrite !capitalize_capitalized, validateEmail_test.
  destruct (test emailRegex (toLowerCase e)); reflexivity.
Qed.

End Handler.

(** ** Case conversion *)

Lemma lowerUnit_idempotent c : lowerUnit (lowerUnit c) = lowerUnit c.
Proof. unfold lowerUnit. case_units; try reflexivity; lia. Qed.

Lemma toLowerCase_idempotent s : toLowerCase (toLowerCase s) = toLowerCase s.
Proof.
  unfold toLowerCase. rewrite map_map. apply map_ext, lowerUnit_idempotent.
Qed.

(** An upper-case form of one unit is its own upper-case form. *)
Lemma upperUnit_fixed c u : upperUnit c = [u] -> upperUnit u = [u].
Proof.
  unfold upperUnit at 1. intros E.
  assert (Hu : u = c - 32 /\ 97 <= c <= 122 \/ u = 924 \/
               u = c - 32 /\ 224 <= c <= 254 \/ u = 376 \/
               u = c /\ ~ 97 <= c <= 122 /\ c <> 181 /\ c <> 223 /\
                 ~ (224 <= c <= 254 /\ c <> 247) /\ c <> 255).
  { case_units; try discriminate; injection E as <-; lia. }
  clear E. unfold upperUnit. case_units; try reflexivity; lia.
Qed.

(** ** The validator and the normalizer *)

(** C1.  The validator accepts an email exactly when it has the shape
    local-part@domain.tld (no whitespace and no '@' in the local part or
    the domain, a '.' between non-empty labels in the domain) and the
    substring after its first '@' contains a '.'.  In particular
    "not-an-email" and "a@b" are not accepted, and a row carrying either is
    left out of the results with the line "Invalid email format: ...". *)
Theorem validateEmail_accepts_shape :
  (forall email,
     validateEmail email = Normal true <-> emailShape email /\ dotAfterFirstAt email) /\
  validateEmail (js "not-an-email") = Normal false /\
  validateEmail (js "a@b") = Normal false /\
  (forall (DB : Type) (S : MySQL DB) n s results (w : World DB),
     onData (row n s (js "not-an-email")) results w =
       (Normal results, print (invalidEmailFormat (js "not-an-email")) w)) /\
  (forall (DB : Type) (S : MySQL DB) n s results (w : World DB),
     onData (row n s (js "a@b")) results w =
       (Normal results, print (invalidEmailFormat (js "a@b")) w)).
Proof.
  split; [|split; [reflexivity|split; [reflexivity|split]]].
  - intros email. rewrite validateEmail_test. split.
    + intros E. injection E as E. apply emailRegex_shape in E.
      split; [assumption | apply shape_dotAfterFirstAt; assumption].
    + intros [Hs _]. apply emailRegex_shape in Hs. rewrite Hs. reflexivity.
  - intros DB S n s results w.
    rewrite (onData_fields _ n s (js "not-an-email")) by reflexivity. reflexivity.
  - intros DB S n s results w.
    rewrite (onData_fields _ n s (js "a@b")) by reflexivity. reflexivity.
Qed.

(** C9.  The validator is total: on every string it returns a boolean and
    never throws.  When the pattern has matched, [split('@')[1]] exists;
    on a string without '@' the validator answers false although the right
    operand of [&&], evaluated on its own, would throw. *)
Theorem validateEmail_total email :
  (exists b, validateEmail email = Normal b) /\
  (test emailRegex email = true ->
     exists domain, split AT email !! 1%nat = Some domain) /\
  (AT ∉ email ->
     validateEmail email = Normal false /\
     domainIncludesDot email = Throw (cannotRead "includes")).
Proof.
  split; [|split].
  - rewrite validateEmail_test. eauto.
  - intros E. apply emailRegex_shape, shape_split in E as (loc & domain & _ & _ & _ & ->).
    exists domain. reflexivity.
  - intros Hn. split.
    + rewrite validateEmail_test. destruct (test emailRegex email) eqn:E; [|reflexivity].
      apply emailRegex_shape, shape_split in E as (loc & domain & -> & _).
      exfalso. apply Hn, elem_of_app. right; left.
    + unfold domainIncludesDot. rewrite split_no_sep by assumption. reflexivity.
Qed.

Lemma validateEmail_total_witness :
  test emailRegex (js "jane@example.com") = true /\
  (AT ∉ js "not-an-email") /\
  (exists domain, split AT (js "jane@example.com") !! 1%nat = Some domain) /\
  validateEmail (js "not-an-email") = Normal false.
Proof.
  assert (Hm : test emailRegex (js "jane@example.com") = true) by reflexivity.
  assert (Hn : AT ∉ js "not-an-email").
  { apply includes_spec_false. reflexivity. }
  split; [exact Hm|]. split; [exact Hn|]. split.
  - exact (proj1 (proj2 (validateEmail_total (js "jane@example.com"))) Hm).
  - exact (proj1 (proj2 (proj2 (validateEmail_total (js "not-an-email"))) Hn)).
Defined.

(** C2.  For a row with its three columns the handler computes the
    capitalized name and surname (first character upper-cased, every
    subsequent character lower-cased) and the wholly lower-cased email:
    these are what it pushes when the email is valid and what it reports
    when it is not.  The row jane / DOE / Jane.Doe@EXAMPLE.com becomes
    Jane / Doe / jane.doe@example.com. *)
Theorem onData_normalizes :
  (forall (DB : Type) (S : MySQL DB) (data : RawRow) n s e results (w : World DB),
     data !! "name" = Some n -> data !! "surname" = Some s ->
     data !! "email" = Some e ->
     capitalize (Some n) = Normal (capitalized n) /\
     capitalize (Some s) = Normal (capitalized s) /\
     onData data results w =
       if test emailRegex (toLowerCase e)
       then (Normal (results ++
                     [mkUser (capitalized n) (capitalized s) (toLowerCase e)]), w)
       else (Normal results, print (invalidEmailFormat (toLowerCase e)) w)) /\
  capitalize (Some (js "jOHN")) = Normal (js "John") /\
  (forall (DB : Type) (S : MySQL DB) results (w : World DB),
     onData (row (js "jane") (js "DOE") (js "Jane.Doe@EXAMPLE.com")) results w =
       (Normal (results ++
                [mkUser (js "Jane") (js "Doe") (js "jane.doe@example.com")]), w)).
Proof.
  split; [|split; [reflexivity|]].
  - intros DB S data n s e results w Hn Hs He.
    rewrite !capitalize_capitalized.
    rewrite (onData_fields data n s e) by assumption. auto.
  - intros DB S results w.
    rewrite (onData_fields _ (js "jane") (js "DOE") (js "Jane.Doe@EXAMPLE.com"))
      by reflexivity.
    reflexivity.
Qed.

Lemma onData_normalizes_witness :
  onData (row (js "jOHN") (js "smith") (js "J.Smith@Mail.org")) [] emptyWorld =
    (Normal [mkUser (js "John") (js "Smith") (js "j.smith@mail.org")], emptyWorld).
Proof.
  exact (proj2 (proj2 (proj1 onData_normalizes UsersTable usersTable
                         (row (js "jOHN") (js "smith") (js "J.Smith@Mail.org"))
                         (js "jOHN") (js "smith") (js "J.Smith@Mail.org")
                         [] emptyWorld eq_refl eq_refl eq_refl))).
Defined.

(** C6, as the specification has it, fails: a row whose name is empty and
    whose email is valid is not rejected; a record with the empty name is
    pushed and nothing is reported. *)
Lemma empty_name_accepted :
  row [] (js "Doe") (js "jane@example.com") !! "name" = Some [] /\
  onData (row [] (js "Doe") (js "jane@example.com")) [] emptyWorld =
    (Normal [mkUser [] (js "Doe") (js "jane@example.com")], emptyWorld).
Proof. split; reflexivity. Qed.

(** C6, amended.  A row whose name or surname is the empty string does not
    make the handler throw and is not rejected for it: the empty field
    normalizes to the empty string, and the row is accepted or rejected on
    its email alone. *)
Theorem onData_empty_field
  (DB : Type) (S : MySQL DB) (data : RawRow) n s e results (w : World DB) :
  data !! "name" = Some n -> data !! "surname" = Some s ->
  data !! "email" = Some e ->
  n = [] \/ s = [] ->
  exists name' surname',
    capitalize (Some n) = Normal name' /\ capitalize (Some s) = Normal surname' /\
    (n = [] -> name' = []) /\ (s = [] -> surname' = []) /\
    onData data results w =
      if test emailRegex (toLowerCase e)
      then (Normal (results ++ [mkUser name' surname' (toLowerCase e)]), w)
      else (Normal results, print (invalidEmailFormat (toLowerCase e)) w).
Proof.
  intros Hn Hs He _. exists (capitalized n), (capitalized s).
  rewrite !capitalize_capitalized.
  split; [reflexivity|]. split; [reflexivity|].
  split; [intros ->; reflexivity|]. split; [intros ->; reflexivity|].
  apply onData_fields; assumption.
Qed.

Lemma onData_empty_field_witness :
  onData (row [] [] (js "x@y.z")) [] emptyWorld =
    (Normal [mkUser [] [] (js "x@y.z")], emptyWorld).
Proof.
  destruct (onData_empty_field UsersTable usersTable (row [] [] (js "x@y.z"))
              [] [] (js "x@y.z") [] emptyWorld
              eq_refl eq_refl eq_refl (or_introl eq_refl))
    as (name' & surname' & _ & _ & Hn & Hs & E).
  rewrite (Hn eq_refl), (Hs eq_refl) in E. exact E.
Defined.

(** C7, as the specification has it, fails: the sharp s upper-cases to
    "SS", and capitalizing "SS" gives "Ss". *)
Lemma capitalize_not_idempotent :
  ~ (forall s : jsstring,
       (1 <= length s)%nat ->
       forall t, capitalize (Some s) = Normal t -> capitalize (Some t) = Normal t).
Proof.
  intros Hidem.
  specialize (Hidem [223] (le_n 1) (js "SS") eq_refl). discriminate.
Qed.

(** C7, amended.  For every string of length at least 1, made of units
    of Basic Latin and the Latin-1 Supplement, whose first character
    upper-cases to a single character, capitalizing twice is capitalizing
    once. *)
Theorem capitalize_idempotent (s : jsstring) :
  (1 <= length s)%nat ->
  latin1 s ->
  length (toUpperCase (charAt s 0)) = 1%nat ->
  exists t, capitalize (Some s) = Normal t /\ capitalize (Some t) = Normal t.
Proof.
  intros _ _ Hone. destruct s as [|c rest]; [discriminate|].
  unfold charAt, toUpperCase in Hone. simpl in Hone. rewrite app_nil_r in Hone.
  destruct (upperUnit c) as [|u [|? ?]] eqn:Eu; try discriminate.
  exists (u :: toLowerCase rest). rewrite !capitalize_capitalized.
  unfold capitalized, toUpperCase. simpl. rewrite !app_nil_r, Eu.
  split; [reflexivity|].
  rewrite (upperUnit_fixed _ _ Eu), toLowerCase_idempotent. reflexivity.
Qed.

Lemma capitalize_idempotent_witness :
  exists t, capitalize (Some (js "jOHN")) = Normal t /\ capitalize (Some t) = Normal t.
Proof.
  apply (capitalize_idempotent (js "jOHN"));
    [simpl; lia | repeat (constructor; [now vm_compute|]); constructor | reflexivity].
Defined.

(** C10.  A row without the [email] key makes the handler throw a
    TypeError: nothing is pushed and nothing is reported; with name and
    surname present it is the read of [data.email.toLowerCase] that
    throws.  The handler therefore returns normally only on rows that
    have the key. *)
Theorem onData_missing_email
  (DB : Type) (S : MySQL DB) (data : RawRow) results (w : World DB) :
  data !! "email" = None ->
  (exists m, onData data results w = (Throw (TypeError m), w)) /\
  (is_Some (data !! "name") -> is_Some (data !! "surname") ->
     onData data results w = (Throw (cannotRead "toLowerCase"), w)) /\
  (forall results' w', onData data results w <> (Normal results', w')).
Proof.
  intros He.
  assert (Hthrow : exists m, onData data results w = (Throw (TypeError m), w)).
  { unfold onData, bind, lift. rewrite He.
    destruct (data !! "name"); [|simpl; eauto].
    destruct (data !! "surname"); simpl; eauto. }
  split; [exact Hthrow|]. split.
  - intros [n Hn] [s Hs]. unfold onData, bind, lift. rewrite Hn, Hs, He. reflexivity.
  - intros results' w' E. destruct Hthrow as [m Hm]. rewrite Hm in E. discriminate.
Qed.

Lemma onData_missing_email_witness :
  rowWithoutEmail (js "jane") (js "doe") !! "email" = None /\
  onData (rowWithoutEmail (js "jane") (js "doe")) [] emptyWorld =
    (Throw (cannotRead "toLowerCase"), emptyWorld).
Proof.
  split; [reflexivity|].
  apply (onData_missing_email UsersTable usersTable
           (rowWithoutEmail (js "jane") (js "doe")) [] emptyWorld eq_refl);
    eexists; reflexivity.
Defined.

(** ** The console *)

Lemma printAll_nil {DB} (w : World DB) : printAll [] w = w.
Proof. destruct w. unfold printAll. simpl. rewrite app_nil_r. reflexivity. Qed.

Lemma printAll_print {DB} entry entries (w : World DB) :
  printAll entries (print entry w) = printAll (entry :: entries) w.
Proof. unfold printAll, print. simpl. rewrite <- app_assoc. reflexivity. Qed.

Lemma print_printAll {DB} entry entries (w : World DB) :
  print entry (printAll entries w) = printAll (entries ++ [entry]) w.
Proof. unfold printAll, print. simpl. rewrite app_assoc. reflexivity. Qed.

Lemma printAll_printAll {DB} entries1 entries2 (w : World DB) :
  printAll entries2 (printAll entries1 w) = printAll (entries1 ++ entries2) w.
Proof. unfold printAll. simpl. rewrite app_assoc. reflexivity. Qed.

(** ** The rows of a stream *)

Lemma unsnoc_some {A : Type} (l : list A) :
  forall before z, unsnoc l = Some (before, z) -> l = before ++ [z].
Proof.
  induction l as [|x rest IH]; intros before z E; [discriminate|].
  cbn [unsnoc] in E. destruct (unsnoc rest) as [[before' z']|] eqn:Erest.
  - injection E as <- <-. rewrite (IH before' z' eq_refl). reflexivity.
  - injection E as <- <-. destruct rest as [|y rest]; [reflexivity|].
    cbn [unsnoc] in Erest. destruct (unsnoc rest) as [[? ?]|]; discriminate.
Qed.

Lemma unsnoc_snoc {A : Type} (before : list A) z :
  unsnoc (before ++ [z]) = Some (before, z).
Proof.
  induction before as [|x before IH]; [reflexivity|].
  cbn [app unsnoc]. rewrite IH. reflexivity.
Qed.

Lemma flushedRow_rows (stream : CsvStream) before data :
  flushedRow stream = Some (before, data) ->
  rows stream = before ++ [data] /\ ending stream = Ended /\
  lastRowFlushed stream = true.
Proof.
  unfold flushedRow. destruct (ending stream); try discriminate.
  destruct (lastRowFlushed stream); [|discriminate].
  intros E. apply unsnoc_some in E. auto.
Qed.

Section Rows.
Context {DB : Type} `{MySQL DB}.

(** The handler only ever writes to the console. *)
Lemma onData_prints (data : RawRow) results (w : World DB) :
  exists c entries, onData data results w = (c, printAll entries w).
Proof.
  unfold onData, bind, lift.
  destruct (capitalize (data !! "name")) as [n| | |];
    try (eexists _, []; rewrite printAll_nil; reflexivity).
  destruct (capitalize (data !! "surname")) as [s| | |];
    try (eexists _, []; rewrite printAll_nil; reflexivity).
  destruct (data !! "email") as [e|];
    [|eexists _, []; rewrite printAll_nil; reflexivity].
  rewrite validateEmail_test. destruct (test emailRegex (toLowerCase e)).
  - eexists _, []. rewrite printAll_nil. reflexivity.
  - eexists _, [_]. reflexivity.
Qed.

Lemma onRows_prints (stream : list RawRow) :
  forall results (w : World DB),
    exists c entries, onRows stream results w = (c, printAll entries w).
Proof.
  induction stream as [|data rest IH]; intros results w; simpl.
  - eexists _, []. rewrite printAll_nil. reflexivity.
  - destruct (onData_prints data results w) as (c & entries & ->).
    destruct c as [results'| | |]; try (eexists _, _; reflexivity).
    destruct (IH results' (printAll entries w)) as (c' & entries' & ->).
    rewrite printAll_printAll. eexists _, _; reflexivity.
Qed.

Lemma passes_fields (data : RawRow) e :
  data !! "email" = Some e -> passes data = test emailRegex (toLowerCase e).
Proof.
  intros He. unfold passes, rowEmail, field. rewrite He, validateEmail_test.
  reflexivity.
Qed.

(** On rows that have their columns the handler never throws: the valid
    ones are pushed in order, the others reported in order. *)
Lemma onRows_wellFormed (stream : list RawRow) :
  forall results (w : World DB),
    Forall wellFormed stream ->
    onRows stream results w =
      (Normal (results ++ map normalizedRow (List.filter passes stream)),
       printAll (map (fun data => invalidEmailFormat (rowEmail data))
                     (List.filter (fun data => negb (passes data)) stream)) w).
Proof.
  induction stream as [|data rest IH]; intros results w Hwf; simpl.
  - rewrite app_nil_r, printAll_nil. reflexivity.
  - apply Forall_cons in Hwf as [([n Hn] & [s Hs] & [e He]) Hrest].
    rewrite (onData_fields data n s e) by assumption.
    rewrite (passes_fields data e He).
    destruct (test emailRegex (toLowerCase e)) eqn:E; simpl.
    + rewrite IH by assumption. rewrite <- app_assoc. simpl.
      unfold normalizedRow at 2, field. rewrite Hn, Hs, He. reflexivity.
    + rewrite IH by assumption. rewrite printAll_print.
      unfold rowEmail at 2, field. rewrite He. reflexivity.
Qed.

(** The handler returns normally only on a row that has its columns. *)
Lemma onData_normal_wellFormed (data : RawRow) results (w : World DB) results' w' :
  onData data results w = (Normal results', w') -> wellFormed data.
Proof.
  unfold onData, bind, lift, wellFormed.
  destruct (data !! "name") as [n|]; [|discriminate].
  destruct (data !! "surname") as [s|]; [|discriminate].
  destruct (data !! "email") as [e|]; [|discriminate].
  eauto.
Qed.

Lemma onRows_normal_wellFormed (stream : list RawRow) :
  forall results (w : World DB) results' w',
    onRows stream results w = (Normal results', w') -> Forall wellFormed stream.
Proof.
  induction stream as [|data rest IH]; intros results w results' w' E.
  - constructor.
  - cbn [onRows] in E.
    destruct (onData data results w) as [[r| | |] w1] eqn:Edata; try discriminate.
    constructor; [eapply onData_normal_wellFormed | eapply IH]; eassumption.
Qed.

Lemma onRows_app (good rest : list RawRow) :
  forall results (w : World DB),
    onRows (good ++ rest) results w =
      match onRows good results w with
      | (Normal results', w') => onRows rest results' w'
      | other => other
      end.
Proof.
  induction good as [|data good IH]; intros results w; [reflexivity|].
  cbn [app onRows].
  destruct (onData data results w) as [[r|e|e|code] w1]; auto.
Qed.

(** The row of the flush, when it has its columns, is handled like any
    other. *)
Lemma onFlushedRow_wellFormed (data : RawRow) results (w : World DB) :
  wellFormed data -> onFlushedRow data results w = onRows [data] results w.
Proof.
  intros ([n Hn] & [s Hs] & [e He]). unfold onFlushedRow, tryCatch. cbn [onRows].
  rewrite (onData_fields data n s e) by assumption.
  destruct (test emailRegex (toLowerCase e)); reflexivity.
Qed.

(** On rows that have their columns it makes no difference which of them
    the flush emits. *)
Lemma accumulated_onRows path (w : World DB) :
  Forall wellFormed (rows (csvFiles w path)) ->
  accumulated path w = onRows (rows (csvFiles w path)) [] w.
Proof.
  intros Hwf. unfold accumulated.
  destruct (flushedRow (csvFiles w path)) as [[before data]|] eqn:Ef; [|reflexivity].
  apply flushedRow_rows in Ef as (Erows & _). rewrite Erows in Hwf |- *.
  apply Forall_app in Hwf as [_ Hdata]. apply Forall_cons in Hdata as [Hdata _].
  rewrite onRows_app. unfold bind.
  destruct (onRows before [] w) as [[r|e|e|code] w1]; try reflexivity.
  apply onFlushedRow_wellFormed. exact Hdata.
Qed.

Lemma accumulated_wellFormed path (w : World DB) :
  Forall wellFormed (rows (csvFiles w path)) ->
  accumulated path w =
    (Normal (map normalizedRow (List.filter passes (rows (csvFiles w path)))),
     printAll (map (fun data => invalidEmailFormat (rowEmail data))
                   (List.filter (fun data => negb (passes data))
                                (rows (csvFiles w path)))) w).
Proof.
  intros Hwf. rewrite accumulated_onRows, onRows_wellFormed by assumption.
  reflexivity.
Qed.

Lemma accumulated_normal_wellFormed path (w : World DB) results w1 :
  accumulated path w = (Normal results, w1) ->
  Forall wellFormed (rows (csvFiles w path)).
Proof.
  unfold accumulated.
  destruct (flushedRow (csvFiles w path)) as [[before data]|] eqn:Ef;
    [|apply onRows_normal_wellFormed].
  apply flushedRow_rows in Ef as (-> & _). unfold bind.
  destruct (onRows before [] w) as [[r|e|e|code] w'] eqn:Eb; try discriminate.
  apply onRows_normal_wellFormed in Eb.
  unfold onFlushedRow, tryCatch.
  destruct (onData data r w') as [[r2|e|e|code] w2] eqn:Ed; try discriminate.
  intros _. apply Forall_app. split; [exact Eb|].
  constructor; [|constructor]. eapply onData_normal_wellFormed. exact Ed.
Qed.

End Rows.

(** C3.  On a stream of rows that have their columns, the accumulated
    sequence is exactly the normalized forms of the rows whose email passes
    validation, in the order of the file.  The rejected rows are left out
    and each is reported; none of them stops the stream: the handler
    completes normally on all of it.  These streams are the only ones on
    which a sequence is accumulated to the end. *)
Theorem accumulated_valid_rows
  (DB : Type) (S : MySQL DB) (path : jsstring) (w : World DB) :
  (Forall wellFormed (rows (csvFiles w path)) ->
   accumulated path w =
     (Normal (map normalizedRow (List.filter passes (rows (csvFiles w path)))),
      printAll (map (fun data => invalidEmailFormat (rowEmail data))
                    (List.filter (fun data => negb (passes data))
                                 (rows (csvFiles w path)))) w)) /\
  (forall results w1,
     accumulated path w = (Normal results, w1) ->
     Forall wellFormed (rows (csvFiles w path))).
Proof.
  split.
  - apply accumulated_wellFormed.
  - intros results w1. apply accumulated_normal_wellFormed.
Qed.

Lemma accumulated_valid_rows_witness :
  accumulated (js "users.csv") threeRowsWorld =
    (Normal [mkUser (js "Jane") (js "Doe") (js "jane.doe@example.com");
             mkUser (js "Ann") (js "Lee") (js "ann@lee.org")],
     print (invalidEmailFormat (js "not-an-email")) threeRowsWorld).
Proof.
  apply (proj1 (accumulated_valid_rows UsersTable usersTable (js "users.csv")
                  threeRowsWorld)).
  repeat constructor; eexists; reflexivity.
Defined.

(** ** The loader *)

Section LoaderFacts.
Context {DB : Type} `{MySQL DB}.

Lemma insertUser_run user (w : World DB) :
  insertUser user w =
    (Normal tt,
     mkWorld (console w ++ insertFailures [user] (server w))
             (serverAfter [user] (server w))
             (issued w ++ [insertStatement user]) (ended w) (csvFiles w)).
Proof.
  unfold insertUser, tryCatch, execute, consoleError, print.
  unfold insertFailures, serverAfter. fold (insertStatement user).
  destruct (perform (insertStatement user) (server w)) as [[error|] db];
    cbn -[js]; rewrite ?app_nil_r; reflexivity.
Qed.

Lemma insertEach_run users :
  forall w : World DB,
    insertEach users w =
      (Normal tt,
       mkWorld (console w ++ insertFailures users (server w))
               (serverAfter users (server w))
               (issued w ++ map insertStatement users) (ended w) (csvFiles w)).
Proof.
  induction users as [|user rest IH]; intros w; simpl.
  - rewrite !app_nil_r. destruct w; reflexivity.
  - unfold bind. rewrite insertUser_run, IH. simpl.
    rewrite app_nil_r, <- !app_assoc. reflexivity.
Qed.

Lemma insertDataIntoDB_run users (w : World DB) :
  insertDataIntoDB users w =
    (Normal tt,
     mkWorld (console w ++ insertFailures users (server w) ++ [dataInserted])
             (serverAfter users (server w))
             (issued w ++ map insertStatement users) (ended w) (csvFiles w)).
Proof.
  unfold insertDataIntoDB, bind. rewrite insertEach_run.
  unfold consoleLog, print. simpl. rewrite <- app_assoc. reflexivity.
Qed.

End LoaderFacts.

(** C4.  The loader sends one insert per record, in the order of the
    sequence, whatever the server answers; each failure is reported with
    the email of its record, the inserts that went through stay, and the
    loader completes.  On a table that does not hold their email yet, two
    records with the same email give one row, the first, and one reported
    duplicate, the second. *)
Theorem insertDataIntoDB_isolates_failures :
  (forall (DB : Type) (S : MySQL DB) users (w : World DB),
     insertDataIntoDB users w =
       (Normal tt,
        mkWorld (console w ++ insertFailures users (server w) ++ [dataInserted])
                (serverAfter users (server w))
                (issued w ++ map insertStatement users) (ended w) (csvFiles w))) /\
  (forall (first second : UserRecord) (w : World UsersTable),
     email first = email second ->
     email first ∉ map email (server w) ->
     insertDataIntoDB [first; second] w =
       (Normal tt,
        mkWorld (console w ++
                 [insertFailed second (duplicateEntry (email second)); dataInserted])
                (server w ++ [first])
                (issued w ++ [insertStatement first; insertStatement second])
                (ended w) (csvFiles w))).
Proof.
  split.
  - intros DB S users w. apply insertDataIntoDB_run.
  - intros first second w Esame Hnew. rewrite insertDataIntoDB_run.
    assert (E1 : perform (insertStatement first) (server w) =
                 (None, server w ++ [first])).
    { simpl. rewrite bool_decide_eq_false_2 by assumption.
      destruct first; reflexivity. }
    assert (E2 : perform (insertStatement second) (server w ++ [first]) =
                 (Some (duplicateEntry (email second)), server w ++ [first])).
    { simpl. rewrite bool_decide_eq_true_2; [reflexivity|].
      rewrite map_app, <- Esame. apply elem_of_app. right. left. }
    cbn [insertFailures serverAfter map]. rewrite E1. cbn [fst snd].
    rewrite E2. reflexivity.
Qed.

Lemma insertDataIntoDB_isolates_failures_witness :
  insertDataIntoDB
    [mkUser (js "Jane") (js "Doe") (js "jane@doe.org");
     mkUser (js "Janet") (js "Doe") (js "jane@doe.org")] emptyWorld =
    (Normal tt,
     mkWorld [insertFailed (mkUser (js "Janet") (js "Doe") (js "jane@doe.org"))
                (duplicateEntry (js "jane@doe.org"));
              dataInserted]
             [mkUser (js "Jane") (js "Doe") (js "jane@doe.org")]
             [insertStatement (mkUser (js "Jane") (js "Doe") (js "jane@doe.org"));
              insertStatement (mkUser (js "Janet") (js "Doe") (js "jane@doe.org"))]
             false (csvFiles emptyWorld)).
Proof.
  apply (proj2 insertDataIntoDB_isolates_failures
           (mkUser (js "Jane") (js "Doe") (js "jane@doe.org"))
           (mkUser (js "Janet") (js "Doe") (js "jane@doe.org")) emptyWorld).
  - reflexivity.
  - simpl. apply not_elem_of_nil.
Defined.

(** ** The end of the stream *)

Section Pipeline.
Context {DB : Type} `{MySQL DB}.

Lemma onFlushedRow_prints (data : RawRow) results (w : World DB) :
  exists c entries, onFlushedRow data results w = (c, printAll entries w).
Proof.
  unfold onFlushedRow, tryCatch.
  destruct (onData_prints data results w) as (c & entries & ->).
  destruct c as [r|e|e|code]; try (eexists _, _; reflexivity).
  unfold onError, consoleError, lift, bind. cbv beta iota.
  rewrite print_printAll. eexists _, _; reflexivity.
Qed.

Lemma accumulated_prints path (w : World DB) :
  exists c entries, accumulated path w = (c, printAll entries w).
Proof.
  unfold accumulated.
  destruct (flushedRow (csvFiles w path)) as [[before data]|];
    [|apply onRows_prints].
  unfold bind. destruct (onRows_prints before [] w) as (c & entries & ->).
  destruct c as [r|e|e|code]; try (eexists _, _; reflexivity).
  destruct (onFlushedRow_prints data r (printAll entries w)) as (c' & entries' & ->).
  rewrite printAll_printAll. eexists _, _; reflexivity.
Qed.

(** A dry run only ever writes to the console. *)
Lemma processCSVFile_dry_prints path (w : World DB) :
  exists c entries, processCSVFile path true w = (c, printAll entries w).
Proof.
  unfold processCSVFile, bind.
  destruct (accumulated_prints path w) as (c & entries & ->).
  destruct c as [results| | |]; try (eexists _, _; reflexivity).
  cbn [csvFiles printAll].
  destruct (ending (csvFiles w path)) as [|e|e].
  - unfold onEnd, bind, consoleLog. rewrite !print_printAll.
    eexists _, _; reflexivity.
  - unfold onError, bind, consoleError, lift. rewrite print_printAll.
    eexists _, _; reflexivity.
  - eexists _, _; reflexivity.
Qed.

Lemma accumulated_csvFiles path (w : World DB) c w1 :
  accumulated path w = (c, w1) -> csvFiles w1 = csvFiles w.
Proof.
  destruct (accumulated_prints path w) as (c' & entries & ->).
  intros E. injection E as _ <-. reflexivity.
Qed.

End Pipeline.

(** C5.  A dry run sends no statement and leaves the server as it was,
    whatever the file holds.  When the rows are done and the stream has
    ended, the sequence that the dry run prints is the sequence that the
    run without the flag hands to the loader, one insert per record. *)
Theorem dry_run_same_records_no_insert
  (DB : Type) (S : MySQL DB) (path : jsstring) (w : World DB) :
  issued (snd (processCSVFile path true w)) = issued w /\
  server (snd (processCSVFile path true w)) = server w /\
  (forall results w1,
     accumulated path w = (Normal results, w1) ->
     ending (csvFiles w path) = Ended ->
     processCSVFile path true w =
       (Normal tt, printAll [dryRunNotice; ConsoleLog [VUsers results]] w1) /\
     processCSVFile path false w = insertDataIntoDB results w1 /\
     issued (snd (processCSVFile path false w)) =
       issued w ++ map insertStatement results).
Proof.
  destruct (processCSVFile_dry_prints path w) as (c & entries & Edry).
  rewrite Edry. split; [reflexivity|]. split; [reflexivity|].
  intros results w1 Eacc Eend.
  pose proof (accumulated_csvFiles path w _ _ Eacc) as Efiles.
  assert (Ew1 : issued w1 = issued w).
  { destruct (accumulated_prints path w) as (c' & entries' & E').
    rewrite E' in Eacc. injection Eacc as _ <-. reflexivity. }
  assert (Ewet : processCSVFile path false w = insertDataIntoDB results w1).
  { unfold processCSVFile, bind. rewrite Eacc, Efiles, Eend.
    unfold onEnd, tryCatch. rewrite insertDataIntoDB_run. reflexivity. }
  split; [|split; [exact Ewet|]].
  - rewrite <- Edry. unfold processCSVFile, bind. rewrite Eacc, Efiles, Eend.
    unfold onEnd, bind, consoleLog, printAll, print.
    cbn [console server issued ended csvFiles].
    rewrite <- app_assoc. reflexivity.
  - rewrite Ewet, insertDataIntoDB_run. cbn [snd issued]. rewrite Ew1. reflexivity.
Qed.

Lemma dry_run_same_records_no_insert_witness :
  processCSVFile (js "users.csv") true threeRowsWorld =
    (Normal tt,
     printAll [invalidEmailFormat (js "not-an-email"); dryRunNotice;
               ConsoleLog [VUsers [mkUser (js "Jane") (js "Doe") (js "jane.doe@example.com");
                                   mkUser (js "Ann") (js "Lee") (js "ann@lee.org")]]]
              threeRowsWorld) /\
  issued (snd (processCSVFile (js "users.csv") false threeRowsWorld)) =
    [insertStatement (mkUser (js "Jane") (js "Doe") (js "jane.doe@example.com"));
     insertStatement (mkUser (js "Ann") (js "Lee") (js "ann@lee.org"))].
Proof.
  destruct (proj2 (proj2 (dry_run_same_records_no_insert UsersTable usersTable
                            (js "users.csv") threeRowsWorld))
              [mkUser (js "Jane") (js "Doe") (js "jane.doe@example.com");
               mkUser (js "Ann") (js "Lee") (js "ann@lee.org")]
              (print (invalidEmailFormat (js "not-an-email")) threeRowsWorld)
              eq_refl eq_refl) as (Edry & _ & Ewet).
  split; [exact Edry | exact Ewet].
Defined.

(** ** main *)

(** C8.  When the connection cannot be established, [main] reports the
    error and the process exits with status 1: no statement is sent, no
    file is read, the connection is not ended, and the server is as it
    was. *)
Theorem main_connection_failure
  (DB : Type) (S : MySQL DB) (args : argv.t) (w : World DB) (error : JsError) :
  createConnection
    (mkConfig (argv.h args) (argv.port args) (argv.u args) (argv.p args)
              (js "user_upload_db"))
    (server w) = Some error ->
  main args w = (Exit 1%Z, print (connectionFailed error) w) /\ (1 <> 0)%Z.
Proof.
  intros Efail. split; [|discriminate].
  unfold main, bind, connectToDatabase, tryCatch. rewrite Efail.
  reflexivity.
Qed.

Lemma main_connection_failure_witness :
  @main unit unreachable fileArgs unreachableWorld =
    (Exit 1%Z,
     print (connectionFailed (DriverError (js "connect ECONNREFUSED 127.0.0.1:3306")))
           unreachableWorld).
Proof.
  exact (proj1 (main_connection_failure unit unreachable fileArgs unreachableWorld
                  (DriverError (js "connect ECONNREFUSED 127.0.0.1:3306")) eq_refl)).
Defined.

(** * Further properties *)

(** ** createUsersTable and the modes of main *)

Section Modes.
Context {DB : Type} `{MySQL DB}.

Lemma createUsersTable_cases (w : World DB) :
  createUsersTable w =
    (Normal tt,
     mkWorld (console w ++
              [match fst (perform createStatement (server w)) with
               | None => tableCreated
               | Some error => tableNotCreated error
               end])
             (snd (perform createStatement (server w)))
             (issued w ++ [createStatement]) (ended w) (csvFiles w)).
Proof.
  unfold createUsersTable, tryCatch, bind, execute, consoleLog, consoleError, print.
  fold createStatement.
  destruct (perform createStatement (server w)) as [[error|] db]; reflexivity.
Qed.

(** Once connected, [main] is the chosen mode inside [try ... finally]. *)
Lemma main_connected (args : argv.t) (w : World DB) :
  createConnection (connectionOf args) (server w) = None ->
  main args w =
    tryFinally
      (if argv.create_table args then createUsersTable
       else if truthy (argv.file args) then
         processCSVFile (default [] (argv.file args)) (argv.dry_run args)
       else fun w => (Normal tt, print usage w))
      connectionEnd w.
Proof.
  intros Hc. unfold main, bind, connectToDatabase, tryCatch.
  fold (connectionOf args). rewrite Hc. reflexivity.
Qed.

End Modes.

(** X1.  With [--create_table], a connected [main] sends the one CREATE
    TABLE IF NOT EXISTS statement and ends the connection, whatever
    [--file] and [--dry_run] say: the file is not read and nothing is
    inserted.  A refusal by the server is reported and [main] still
    returns normally. *)
Theorem main_create_table_first
  (DB : Type) (S : MySQL DB) (args : argv.t) (w : World DB) :
  createConnection (connectionOf args) (server w) = None ->
  argv.create_table args = true ->
  main args w =
    (Normal tt,
     mkWorld (console w ++
              [match fst (perform createStatement (server w)) with
               | None => tableCreated
               | Some error => tableNotCreated error
               end])
             (snd (perform createStatement (server w)))
             (issued w ++ [createStatement]) true (csvFiles w)).
Proof.
  intros Hc Hct. rewrite main_connected by assumption. rewrite Hct.
  unfold tryFinally. rewrite createUsersTable_cases. reflexivity.
Qed.

Lemma main_create_table_first_witness :
  main createArgs threeRowsWorld =
    (Normal tt,
     mkWorld [tableCreated] [] [createStatement] true (csvFiles threeRowsWorld)).
Proof.
  exact (main_create_table_first UsersTable usersTable createArgs threeRowsWorld
           eq_refl eq_refl).
Defined.

(** X2.  Without [--create_table] and without a file (no [--file], or an
    empty one), a connected [main] prints the usage line, sends nothing
    and ends the connection. *)
Theorem main_usage
  (DB : Type) (S : MySQL DB) (args : argv.t) (w : World DB) :
  createConnection (connectionOf args) (server w) = None ->
  argv.create_table args = false ->
  argv.file args = None \/ argv.file args = Some [] ->
  main args w = (Normal tt, closed (print usage w)).
Proof.
  intros Hc Hct Hfile. rewrite main_connected by assumption. rewrite Hct.
  assert (Hfalsy : truthy (argv.file args) = false)
    by (destruct Hfile as [-> | ->]; reflexivity).
  rewrite Hfalsy. reflexivity.
Qed.

Lemma main_usage_witness :
  main noArgs threeRowsWorld = (Normal tt, closed (print usage threeRowsWorld)).
Proof.
  apply (main_usage UsersTable usersTable noArgs threeRowsWorld);
    [reflexivity | reflexivity | right; reflexivity].
Defined.

(** ** How the stream and the run can end *)

Section Endings.
Context {DB : Type} `{MySQL DB}.

(** The handler returns or throws; it neither exits nor dies. *)
Lemma onData_completion (data : RawRow) results (w : World DB) :
  (exists results', fst (onData data results w) = Normal results') \/
  (exists e, fst (onData data results w) = Throw e).
Proof.
  unfold onData, bind, lift.
  destruct (capitalize (data !! "name")) as [n|e|e|code] eqn:En;
    [|right; eexists; reflexivity
     |destruct (data !! "name"); discriminate
     |destruct (data !! "name"); discriminate].
  destruct (capitalize (data !! "surname")) as [s|e|e|code] eqn:Es;
    [|right; eexists; reflexivity
     |destruct (data !! "surname"); discriminate
     |destruct (data !! "surname"); discriminate].
  destruct (data !! "email") as [e|]; [|right; eexists; reflexivity].
  rewrite validateEmail_test.
  destruct (test emailRegex (toLowerCase e)); left; eexists; reflexivity.
Qed.

(** A row without one of its columns makes the handler throw, and the
    world is as it was. *)
Lemma onData_not_wellFormed (data : RawRow) results (w : World DB) :
  ~ wellFormed data ->
  exists m, onData data results w = (Throw (TypeError m), w).
Proof.
  intros Hnot. unfold onData, bind, lift.
  destruct (data !! "name") as [n|] eqn:En; [|eexists; reflexivity].
  destruct (data !! "surname") as [s|] eqn:Es; [|eexists; reflexivity].
  destruct (data !! "email") as [e|] eqn:Ee; [|eexists; reflexivity].
  exfalso. apply Hnot. unfold wellFormed. rewrite En, Es, Ee. eauto.
Qed.

(** The rows are handled to the end, or an exception is uncaught. *)
Lemma onRows_completion (stream : list RawRow) :
  forall results (w : World DB),
    (exists results', fst (onRows stream results w) = Normal results') \/
    (exists e, fst (onRows stream results w) = Uncaught e).
Proof.
  induction stream as [|data rest IH]; intros results w; cbn [onRows].
  - left. eexists. reflexivity.
  - destruct (onData_completion data results w) as [[r E] | [e E]];
      destruct (onData data results w) as [c w1]; cbn [fst] in E; subst c.
    + apply IH.
    + right. eexists. reflexivity.
Qed.

Lemma onData_missingColumn (data : RawRow) results (w : World DB) :
  ~ wellFormed data -> onData data results w = (Throw (missingColumn data), w).
Proof.
  intros Hnot. unfold onData, bind, lift, missingColumn.
  destruct (data !! "name") as [n|] eqn:En; [|reflexivity].
  destruct (data !! "surname") as [s|] eqn:Es; [|reflexivity].
  destruct (data !! "email") as [e|] eqn:Ee; [|reflexivity].
  exfalso. apply Hnot. unfold wellFormed. rewrite En, Es, Ee. eauto.
Qed.

(** A stream with a row that lacks a column, emitted while the file is
    read: the rows before it are handled, then the exception is
    uncaught. *)
Lemma onRows_short_line (good : list RawRow) bad rest results (w : World DB) :
  Forall wellFormed good -> ~ wellFormed bad ->
  onRows (good ++ bad :: rest) results w =
    (Uncaught (missingColumn bad), printAll (rejections good) w).
Proof.
  intros Hgood Hbad. rewrite onRows_app, onRows_wellFormed by assumption.
  fold (rejections good). cbn [onRows].
  rewrite onData_missingColumn by assumption. reflexivity.
Qed.

Lemma accumulated_short_line_read path (w : World DB) good bad rest :
  rows (csvFiles w path) = good ++ bad :: rest ->
  Forall wellFormed good -> ~ wellFormed bad ->
  flushedRow (csvFiles w path) <> Some (good, bad) ->
  accumulated path w = (Uncaught (missingColumn bad), printAll (rejections good) w).
Proof.
  intros Hrows Hgood Hbad Hread. unfold accumulated.
  destruct (flushedRow (csvFiles w path)) as [[before data]|] eqn:Ef.
  - apply flushedRow_rows in Ef as (Erows & _). rewrite Hrows in Erows.
    destruct rest as [|z rest' _] using rev_ind.
    + apply app_inj_tail in Erows as [-> ->]. contradiction.
    + change (good ++ bad :: rest' ++ [z]) with (good ++ (bad :: rest') ++ [z]) in Erows.
      rewrite app_assoc in Erows. apply app_inj_tail in Erows as [<- _].
      unfold bind. rewrite onRows_short_line by assumption. reflexivity.
  - rewrite Hrows. apply onRows_short_line; assumption.
Qed.

(** The same row emitted by the flush: the exception reaches the
    ['error'] handler. *)
Lemma accumulated_short_line_flushed path (w : World DB) good bad :
  flushedRow (csvFiles w path) = Some (good, bad) ->
  Forall wellFormed good -> ~ wellFormed bad ->
  accumulated path w =
    (Throw (missingColumn bad),
     printAll (rejections good ++ [csvNotRead (missingColumn bad)]) w).
Proof.
  intros Ef Hgood Hbad. unfold accumulated. rewrite Ef. unfold bind.
  rewrite onRows_wellFormed by assumption. fold (rejections good).
  unfold onFlushedRow, tryCatch. rewrite onData_missingColumn by assumption.
  unfold onError, consoleError, lift, bind. cbv beta iota.
  rewrite print_printAll. reflexivity.
Qed.

Lemma accumulated_no_exit path (w : World DB) code :
  fst (accumulated path w) <> Exit code.
Proof.
  unfold accumulated.
  destruct (flushedRow (csvFiles w path)) as [[before data]|].
  - unfold bind.
    destruct (onRows_completion before [] w) as [[r E] | [e E]];
      destruct (onRows before [] w) as [c w1]; cbn [fst] in E; subst c;
      [|discriminate].
    unfold onFlushedRow, tryCatch.
    destruct (onData_completion data r w1) as [[r' E] | [e E]];
      destruct (onData data r w1) as [c w2]; cbn [fst] in E; subst c; discriminate.
  - destruct (onRows_completion (rows (csvFiles w path)) [] w) as [[r E] | [e E]];
      rewrite E; discriminate.
Qed.

(** Reading a file never exits the process and never ends the
    connection. *)
Lemma processCSVFile_frame path dryRun (w : World DB) :
  ended (snd (processCSVFile path dryRun w)) = ended w /\
  forall code, fst (processCSVFile path dryRun w) <> Exit code.
Proof.
  unfold processCSVFile, bind.
  pose proof (accumulated_no_exit path w) as Hexit.
  destruct (accumulated_prints path w) as (c & entries & E).
  rewrite E in Hexit |- *. cbn [fst] in Hexit.
  destruct c as [r|e|e|code];
    [|split; [reflexivity|discriminate]|split; [reflexivity|discriminate]
     |destruct (Hexit code eq_refl)].
  cbn [csvFiles printAll].
  destruct (ending (csvFiles w path)) as [|e|e].
  - destruct dryRun.
    + unfold onEnd, bind, consoleLog. split; [reflexivity|discriminate].
    + unfold onEnd, tryCatch. rewrite insertDataIntoDB_run.
      split; [reflexivity|discriminate].
  - unfold onError, bind, consoleError, lift. split; [reflexivity|discriminate].
  - split; [reflexivity|discriminate].
Qed.

(** On rows that have their columns and a stream that ends, the two
    modes of [processCSVFile]. *)
Lemma processCSVFile_ended path dryRun (w : World DB) :
  Forall wellFormed (rows (csvFiles w path)) ->
  ending (csvFiles w path) = Ended ->
  processCSVFile path dryRun w =
    if dryRun
    then (Normal tt,
          printAll (rejections (rows (csvFiles w path)) ++
                    [dryRunNotice; ConsoleLog [VUsers (records (rows (csvFiles w path)))]])
                   w)
    else (Normal tt,
          mkWorld (console w ++ rejections (rows (csvFiles w path)) ++
                   insertFailures (records (rows (csvFiles w path))) (server w) ++
                   [dataInserted])
                  (serverAfter (records (rows (csvFiles w path))) (server w))
                  (issued w ++ map insertStatement (records (rows (csvFiles w path))))
                  (ended w) (csvFiles w)).
Proof.
  intros Hwf Hend. unfold processCSVFile, bind.
  rewrite accumulated_wellFormed by assumption.
  fold (rejections (rows (csvFiles w path))) (records (rows (csvFiles w path))).
  cbn [csvFiles printAll app]. rewrite Hend. destruct dryRun.
  - unfold onEnd, bind, consoleLog, print, printAll.
    cbn [console server issued ended csvFiles].
    rewrite <- !app_assoc. reflexivity.
  - unfold onEnd, tryCatch. rewrite insertDataIntoDB_run. unfold printAll.
    cbn [console server issued ended csvFiles].
    rewrite <- !app_assoc. reflexivity.
Qed.

(** The same rows, the parser failing after them. *)
Lemma processCSVFile_parser_failed path dryRun (w : World DB) e :
  Forall wellFormed (rows (csvFiles w path)) ->
  ending (csvFiles w path) = ParserFailed e ->
  processCSVFile path dryRun w =
    (Throw e, printAll (rejections (rows (csvFiles w path)) ++ [csvNotRead e]) w).
Proof.
  intros Hwf Hend. unfold processCSVFile, bind.
  rewrite accumulated_wellFormed by assumption.
  fold (rejections (rows (csvFiles w path))).
  cbn [csvFiles printAll app]. rewrite Hend.
  unfold onError, bind, consoleError, lift. rewrite print_printAll. reflexivity.
Qed.

End Endings.

(** X3.  Once connected, [main] never exits the process by itself, and
    whenever it returns or rethrows, the connection has been ended; only
    an uncaught exception leaves the connection as it was. *)
Theorem main_ends_connection
  (DB : Type) (S : MySQL DB) (args : argv.t) (w : World DB) :
  createConnection (connectionOf args) (server w) = None ->
  (forall code, fst (main args w) <> Exit code) /\
  ((exists a, fst (main args w) = Normal a) \/ (exists e, fst (main args w) = Throw e) ->
   ended (snd (main args w)) = true) /\
  ((exists e, fst (main args w) = Uncaught e) ->
   ended (snd (main args w)) = ended w).
Proof.
  intros Hc. rewrite main_connected by assumption.
  set (body := if argv.create_table args then createUsersTable
               else if truthy (argv.file args)
                    then processCSVFile (default [] (argv.file args)) (argv.dry_run args)
                    else fun w0 : World DB => (Normal tt, print usage w0)).
  assert (Hbody : ended (snd (body w)) = ended w /\
                  forall code, fst (body w) <> Exit code).
  { unfold body. destruct (argv.create_table args).
    - rewrite createUsersTable_cases. split; [reflexivity|discriminate].
    - destruct (truthy (argv.file args)).
      + apply processCSVFile_frame.
      + split; [reflexivity|discriminate]. }
  destruct Hbody as [Hended Hexit]. unfold tryFinally.
  destruct (body w) as [[a|e|e|code] wb]; cbn [fst snd] in *.
  - split; [discriminate|]. split; [reflexivity|]. intros [e E]. discriminate.
  - split; [discriminate|]. split; [reflexivity|]. intros [e' E]. discriminate.
  - split; [discriminate|]. split; [|intros _; exact Hended].
    intros [[a E] | [e' E]]; discriminate.
  - destruct (Hexit code eq_refl).
Qed.

Lemma main_ends_connection_witness :
  ended (snd (main fileArgs threeRowsWorld)) = true.
Proof.
  apply (main_ends_connection UsersTable usersTable fileArgs threeRowsWorld eq_refl).
  left. exists tt. reflexivity.
Defined.

(** X4.  A connected [main] given a file whose rows have their columns
    and whose stream ends.  Without [--dry_run] it reports the rejected
    rows, sends one insert per accepted row in the order of the file,
    reports the inserts that failed, prints the closing line and ends the
    connection.  With [--dry_run] it reports the rejected rows, prints the
    accepted records, sends nothing and ends the connection. *)
Theorem main_processes_file
  (DB : Type) (S : MySQL DB) (args : argv.t) (w : World DB) (path : jsstring) :
  createConnection (connectionOf args) (server w) = None ->
  argv.create_table args = false ->
  argv.file args = Some path -> path <> [] ->
  Forall wellFormed (rows (csvFiles w path)) ->
  ending (csvFiles w path) = Ended ->
  main args w =
    if argv.dry_run args
    then (Normal tt,
          closed (printAll (rejections (rows (csvFiles w path)) ++
                            [dryRunNotice;
                             ConsoleLog [VUsers (records (rows (csvFiles w path)))]])
                           w))
    else (Normal tt,
          mkWorld (console w ++ rejections (rows (csvFiles w path)) ++
                   insertFailures (records (rows (csvFiles w path))) (server w) ++
                   [dataInserted])
                  (serverAfter (records (rows (csvFiles w path))) (server w))
                  (issued w ++ map insertStatement (records (rows (csvFiles w path))))
                  true (csvFiles w)).
Proof.
  intros Hc Hct Hfile Hpath Hwf Hend. rewrite main_connected by assumption.
  rewrite Hct, Hfile. destruct path as [|c path]; [contradiction|].
  cbn [truthy default]. unfold tryFinally.
  rewrite processCSVFile_ended by assumption.
  destruct (argv.dry_run args); reflexivity.
Qed.

Lemma main_processes_file_witness :
  main fileArgs threeRowsWorld =
    (Normal tt,
     mkWorld [invalidEmailFormat (js "not-an-email"); dataInserted]
             [mkUser (js "Jane") (js "Doe") (js "jane.doe@example.com");
              mkUser (js "Ann") (js "Lee") (js "ann@lee.org")]
             [insertStatement (mkUser (js "Jane") (js "Doe") (js "jane.doe@example.com"));
              insertStatement (mkUser (js "Ann") (js "Lee") (js "ann@lee.org"))]
             true (csvFiles threeRowsWorld)).
Proof.
  apply (main_processes_file UsersTable usersTable fileArgs threeRowsWorld
           (js "users.csv")); try reflexivity.
  - discriminate.
  - repeat constructor; eexists; reflexivity.
Defined.

(** X5.  When the parser fails after rows that have their columns, the
    failure is reported and nothing is inserted or printed, with or
    without [--dry_run]; [main] ends the connection and rethrows the
    parser's error. *)
Theorem main_parser_failure
  (DB : Type) (S : MySQL DB) (args : argv.t) (w : World DB) (path : jsstring)
  (e : JsError) :
  createConnection (connectionOf args) (server w) = None ->
  argv.create_table args = false ->
  argv.file args = Some path -> path <> [] ->
  Forall wellFormed (rows (csvFiles w path)) ->
  ending (csvFiles w path) = ParserFailed e ->
  main args w =
    (Throw e,
     closed (printAll (rejections (rows (csvFiles w path)) ++ [csvNotRead e]) w)).
Proof.
  intros Hc Hct Hfile Hpath Hwf Hend. rewrite main_connected by assumption.
  rewrite Hct, Hfile. destruct path as [|c path]; [contradiction|].
  cbn [truthy default]. unfold tryFinally.
  rewrite (processCSVFile_parser_failed _ _ _ e) by assumption. reflexivity.
Qed.

Lemma main_parser_failure_witness :
  main fileArgs parserFailedWorld =
    (Throw (StreamError (js "Row length does not match headers")),
     closed (printAll [invalidEmailFormat (js "not-an-email");
                       csvNotRead (StreamError (js "Row length does not match headers"))]
                      parserFailedWorld)).
Proof.
  apply (main_parser_failure UsersTable usersTable fileArgs parserFailedWorld
           (js "users.csv")); try reflexivity.
  - discriminate.
  - repeat constructor; eexists; reflexivity.
Defined.

(** X6.  One row that lacks a column loses the whole file: the rows
    before it are handled, nothing is inserted, not even the accepted
    rows before it, and the rows after it are not handled.  When the row
    is emitted while the file is read, the run dies of the uncaught
    TypeError and the connection is not ended.  When it is the last line
    of a file that ends without a line break, the flush of the parser
    catches the TypeError: it is reported as "Error reading the CSV
    file:", and [main] ends the connection and rethrows it. *)
Theorem main_short_line
  (DB : Type) (S : MySQL DB) (args : argv.t) (w : World DB) (path : jsstring)
  (good : list RawRow) (bad : RawRow) (rest : list RawRow) :
  createConnection (connectionOf args) (server w) = None ->
  argv.create_table args = false ->
  argv.file args = Some path -> path <> [] ->
  rows (csvFiles w path) = good ++ bad :: rest ->
  Forall wellFormed good -> ~ wellFormed bad ->
  (rest = [] -> ending (csvFiles w path) = Ended ->
   lastRowFlushed (csvFiles w path) = true ->
   main args w =
     (Throw (missingColumn bad),
      closed (printAll (rejections good ++ [csvNotRead (missingColumn bad)]) w))) /\
  (rest <> [] \/ ending (csvFiles w path) <> Ended \/
   lastRowFlushed (csvFiles w path) = false ->
   main args w = (Uncaught (missingColumn bad), printAll (rejections good) w)).
Proof.
  intros Hc Hct Hfile Hpath Hrows Hgood Hbad. rewrite main_connected by assumption.
  rewrite Hct, Hfile. destruct path as [|c path]; [contradiction|].
  cbn [truthy default]. unfold id, tryFinally, processCSVFile, bind. split.
  - intros -> Hend Hflag.
    assert (Ef : flushedRow (csvFiles w (c :: path)) = Some (good, bad)).
    { unfold flushedRow. rewrite Hend, Hflag, Hrows. apply unsnoc_snoc. }
    rewrite (accumulated_short_line_flushed _ _ good bad) by assumption.
    reflexivity.
  - intros Hread.
    rewrite (accumulated_short_line_read _ _ good bad rest); try assumption;
      [reflexivity|].
    intros Ef. apply flushedRow_rows in Ef as (Erows & Hend & Hflag).
    rewrite Hrows in Erows. apply app_inv_head in Erows. injection Erows as ->.
    destruct Hread as [Hrest | [Hnot | Hfalse]];
      [apply Hrest; reflexivity | apply Hnot; exact Hend | congruence].
Qed.

Lemma main_short_line_witness :
  main fileArgs shortLastLineWorld =
    (Throw (cannotRead "toLowerCase"),
     closed (printAll [invalidEmailFormat (js "not-an-email");
                       csvNotRead (cannotRead "toLowerCase")] shortLastLineWorld)) /\
  main fileArgs shortLineWorld =
    (Uncaught (cannotRead "toLowerCase"),
     printAll [invalidEmailFormat (js "not-an-email")] shortLineWorld).
Proof.
  split.
  - apply (main_short_line UsersTable usersTable fileArgs shortLastLineWorld
             (js "users.csv")
             [row (js "bob") (js "stone") (js "not-an-email")]
             (rowWithoutEmail (js "jane") (js "doe")) []); try reflexivity.
    + discriminate.
    + repeat constructor; eexists; reflexivity.
    + intros (_ & _ & [e He]). discriminate.
  - apply (main_short_line UsersTable usersTable fileArgs shortLineWorld
             (js "users.csv")
             [row (js "bob") (js "stone") (js "not-an-email")]
             (rowWithoutEmail (js "jane") (js "doe"))
             [row (js "aNN") (js "lee") (js "ann@lee.org")]); try reflexivity.
    + discriminate.
    + repeat constructor; eexists; reflexivity.
    + intros (_ & _ & [e He]). discriminate.
    + left. discriminate.
Defined.

(** X7.  With [--dry_run] and without [--create_table], [main] sends no
    statement and leaves the server as it was, whether or not the
    connection is established and whatever the file holds. *)
Theorem main_dry_run_sends_nothing
  (DB : Type) (S : MySQL DB) (args : argv.t) (w : World DB) :
  argv.create_table args = false ->
  argv.dry_run args = true ->
  issued (snd (main args w)) = issued w /\ server (snd (main args w)) = server w.
Proof.
  intros Hct Hdry.
  destruct (createConnection (connectionOf args) (server w)) as [e|] eqn:Hc.
  - unfold main, bind, connectToDatabase, tryCatch. fold (connectionOf args).
    rewrite Hc. split; reflexivity.
  - rewrite main_connected by assumption. rewrite Hct, Hdry. unfold tryFinally.
    destruct (truthy (argv.file args)).
    + destruct (processCSVFile_dry_prints (default [] (argv.file args)) w)
        as (c & entries & ->).
      destruct c; split; reflexivity.
    + split; reflexivity.
Qed.

Lemma main_dry_run_sends_nothing_witness :
  issued (snd (main dryArgs threeRowsWorld)) = [] /\
  server (snd (main dryArgs threeRowsWorld)) = [].
Proof.
  exact (main_dry_run_sends_nothing UsersTable usersTable dryArgs threeRowsWorld
           eq_refl eq_refl).
Defined.

(** ** What the validator accepts *)

Lemma whiteSpace_range c :
  isWhiteSpace c = true -> 9 <= c <= 13 \/ c = 32 \/ c = 160 \/ 5760 <= c.
Proof.
  unfold isWhiteSpace.
  rewrite !orb_true_iff, !andb_true_iff, !N.leb_le, !N.eqb_eq. lia.
Qed.

Lemma lowerUnit_cases c :
  lowerUnit c = c \/
  lowerUnit c = c + 32 /\ (65 <= c <= 90 \/ 192 <= c <= 222).
Proof. unfold lowerUnit. case_units; auto; right; lia. Qed.

Lemma lowerUnit_whiteSpace c : isWhiteSpace (lowerUnit c) = isWhiteSpace c.
Proof.
  destruct (lowerUnit_cases c) as [-> | [-> Hc]]; [reflexivity|].
  destruct (isWhiteSpace (c + 32)) eqn:E1;
    [apply whiteSpace_range in E1; lia|].
  destruct (isWhiteSpace c) eqn:E2; [apply whiteSpace_range in E2; lia|].
  reflexivity.
Qed.

(** Lower-casing makes no unit an ['@'] or a ['.'] and unmakes none. *)
Lemma lowerUnit_mark c m : m = AT \/ m = DOT -> lowerUnit c = m <-> c = m.
Proof.
  unfold AT, DOT. intros Hm.
  destruct (lowerUnit_cases c) as [E | [E Hc]]; rewrite E; [tauto | lia].
Qed.

Lemma lowerUnit_plain c : plain (lowerUnit c) <-> plain c.
Proof.
  unfold plain. rewrite lowerUnit_whiteSpace.
  rewrite (lowerUnit_mark c AT) by auto. tauto.
Qed.

Lemma toLowerCase_label s : label (toLowerCase s) <-> label s.
Proof.
  unfold label, toLowerCase. rewrite Forall_map.
  split; intros [Hne Hall]; split.
  - intros ->. apply Hne. reflexivity.
  - eapply Forall_impl; [exact Hall|]. intros c. apply lowerUnit_plain.
  - destruct s; [contradiction | discriminate].
  - eapply Forall_impl; [exact Hall|]. intros c. apply lowerUnit_plain.
Qed.

Lemma toLowerCase_shape e : emailShape (toLowerCase e) <-> emailShape e.
Proof.
  unfold emailShape. split.
  - intros (loc & dom & tld & E & Hloc & Hdom & Htld).
    unfold toLowerCase in E.
    apply map_eq_app in E as (loc' & r1 & -> & <- & E).
    apply map_eq_cons in E as (a & r2 & -> & Ea & E).
    apply map_eq_app in E as (dom' & r3 & -> & <- & E).
    apply map_eq_cons in E as (d & tld' & -> & Ed & <-).
    apply (lowerUnit_mark a AT) in Ea; [subst a | auto].
    apply (lowerUnit_mark d DOT) in Ed; [subst d | auto].
    exists loc', dom', tld'. fold (toLowerCase loc') in Hloc.
    fold (toLowerCase dom') in Hdom. fold (toLowerCase tld') in Htld.
    rewrite toLowerCase_label in Hloc, Hdom, Htld. auto.
  - intros (loc & dom & tld & -> & Hloc & Hdom & Htld).
    exists (toLowerCase loc), (toLowerCase dom), (toLowerCase tld).
    rewrite !toLowerCase_label. split; [|auto].
    unfold toLowerCase. rewrite map_app. cbn [map]. rewrite map_app. reflexivity.
Qed.

Lemma plain_no_occurrence s : Forall plain s -> List.filter (N.eqb AT) s = [].
Proof.
  induction 1 as [|c s [_ Hc] _ IH]; [reflexivity|]. cbn [List.filter].
  destruct (N.eqb_spec AT c) as [E|_]; [congruence | exact IH].
Qed.

(** X8.  An email that the validator accepts has exactly one ['@'], no
    whitespace, at least five units, and starts with something else
    than ['@']. *)
Theorem accepted_email_facts (email : jsstring) :
  validateEmail email = Normal true ->
  occurrences AT email = 1%nat /\
  Forall (fun c => isWhiteSpace c = false) email /\
  (5 <= length email)%nat /\
  head email <> Some AT.
Proof.
  rewrite validateEmail_test. intros E. injection E as E.
  apply emailRegex_shape in E
    as (loc & dom & tld & -> & [Nloc Hloc] & [Ndom Hdom] & [Ntld Htld]).
  split; [|split; [|split]].
  - unfold occurrences.
    rewrite List.filter_app. cbn [List.filter]. rewrite N.eqb_refl.
    rewrite List.filter_app. cbn [List.filter].
    replace (AT =? DOT) with false by reflexivity.
    rewrite !plain_no_occurrence by assumption. reflexivity.
  - assert (Hws : forall s, Forall plain s -> Forall (fun c => isWhiteSpace c = false) s).
    { intros s Hs. eapply Forall_impl; [exact Hs|]. intros c [Hc _]. exact Hc. }
    apply Forall_app; split; [auto|]. constructor; [reflexivity|].
    apply Forall_app; split; [auto|]. constructor; [reflexivity | auto].
  - rewrite length_app. cbn [length]. rewrite length_app. cbn [length].
    destruct loc; [contradiction|]. destruct dom; [contradiction|].
    destruct tld; [contradiction|]. cbn [length]. lia.
  - destruct loc as [|c loc]; [contradiction|]. cbn [app head].
    apply Forall_cons in Hloc as [[_ Hc] _]. congruence.
Qed.

Lemma accepted_email_facts_witness :
  occurrences AT (js "jane.doe@example.com") = 1%nat /\
  Forall (fun c => isWhiteSpace c = false) (js "jane.doe@example.com") /\
  (5 <= length (js "jane.doe@example.com"))%nat /\
  head (js "jane.doe@example.com") <> Some AT.
Proof. exact (accepted_email_facts (js "jane.doe@example.com") eq_refl). Defined.

(** X9.  On an email made of units of Basic Latin and the Latin-1
    Supplement, lower-casing does not change the verdict: it is accepted
    in lower case exactly when it is accepted as written. *)
Theorem validateEmail_case_blind (email : jsstring) :
  latin1 email ->
  validateEmail (toLowerCase email) = validateEmail email.
Proof.
  intros _. rewrite !validateEmail_test. f_equal. apply eq_true_iff_eq.
  rewrite !emailRegex_shape. apply toLowerCase_shape.
Qed.

Lemma validateEmail_case_blind_witness :
  validateEmail (toLowerCase (js "Jane.Doe@EXAMPLE.com")) =
    validateEmail (js "Jane.Doe@EXAMPLE.com").
Proof.
  apply (validateEmail_case_blind (js "Jane.Doe@EXAMPLE.com")).
  repeat (constructor; [now vm_compute|]); constructor.
Defined.

(** ** capitalize *)

Lemma upperUnit_basicLatin c :
  c < 128 ->
  exists u, upperUnit c = [u] /\ u < 128 /\ ~ lowerLetter u.
Proof.
  unfold upperUnit, lowerLetter. intros Hc.
  case_units; try (exfalso; lia); eexists; (split; [reflexivity|]); lia.
Qed.

Lemma lowerUnit_basicLatin c : c < 128 -> lowerUnit c < 128.
Proof. unfold lowerUnit. intros Hc. case_units; lia. Qed.

Lemma lowerUnit_not_upper c : ~ upperLetter (lowerUnit c).
Proof. unfold lowerUnit, upperLetter. case_units; lia. Qed.

Lemma upperUnit_nonempty c : upperUnit c <> [].
Proof. unfold upperUnit. case_units; discriminate. Qed.

(** Capitalizing twice is capitalizing once when the first character
    upper-cases to one character; the empty string stays empty. *)
Lemma capitalized_idempotent s :
  singleInitial s -> capitalized (capitalized s) = capitalized s.
Proof.
  unfold singleInitial. destruct s as [|c rest]; [reflexivity|].
  unfold charAt, toUpperCase. cbn [lookup list_lookup flat_map].
  rewrite app_nil_r. intros Hone.
  pose proof (upperUnit_nonempty c) as Hne.
  destruct (upperUnit c) as [|u [|? ?]] eqn:Eu;
    [contradiction | | cbn [length] in Hone; lia].
  unfold capitalized, toUpperCase. cbn [flat_map]. rewrite !app_nil_r, Eu.
  cbn [app]. rewrite (upperUnit_fixed _ _ Eu), toLowerCase_idempotent. reflexivity.
Qed.

(** X10.  On a string of Basic Latin, [capitalize] keeps the length and
    stays in Basic Latin; the result does not start with a lower-case
    letter and has no upper-case letter after its first character. *)
Theorem capitalize_basicLatin (s : jsstring) :
  basicLatin s ->
  exists t,
    capitalize (Some s) = Normal t /\
    length t = length s /\
    basicLatin t /\
    (forall c, head t = Some c -> ~ lowerLetter c) /\
    Forall (fun c => ~ upperLetter c) (tail t).
Proof.
  intros Hs. exists (capitalized s). split; [apply capitalize_capitalized|].
  destruct Hs as [|c rest Hc Hrest]; [repeat split; try constructor; discriminate|].
  destruct (upperUnit_basicLatin c Hc) as (u & Eu & Hu & Hlow).
  unfold capitalized, toUpperCase, toLowerCase. cbn [flat_map].
  rewrite app_nil_r, Eu. cbn [app head tail length].
  rewrite length_map. split; [reflexivity|]. split; [|split].
  - constructor; [exact Hu|]. apply Forall_map.
    eapply Forall_impl; [exact Hrest|]. intros x. apply lowerUnit_basicLatin.
  - intros x E. injection E as <-. exact Hlow.
  - apply Forall_map, Forall_forall. intros x _. apply lowerUnit_not_upper.
Qed.

Lemma capitalize_basicLatin_witness :
  exists t,
    capitalize (Some (js "mcDONALD")) = Normal t /\
    length t = length (js "mcDONALD") /\
    basicLatin t /\
    (forall c, head t = Some c -> ~ lowerLetter c) /\
    Forall (fun c => ~ upperLetter c) (tail t).
Proof.
  apply (capitalize_basicLatin (js "mcDONALD")).
  repeat constructor.
Defined.

(** ** split *)

(** X11.  [split] cuts at every separator and at nothing else: joining
    the pieces with the separator gives the string back, there is one
    piece more than there are separators, and no piece holds one. *)
Theorem split_join (sep : N) (str : jsstring) :
  join sep (split sep str) = str /\
  length (split sep str) = S (occurrences sep str) /\
  Forall (fun piece => sep ∉ piece) (split sep str).
Proof.
  unfold occurrences. induction str as [|c rest (IHjoin & IHlen & IHall)].
  - split; [reflexivity|]. split; [reflexivity|].
    constructor; [apply not_elem_of_nil | constructor].
  - cbn [split List.filter]. rewrite (N.eqb_sym sep c).
    destruct (N.eqb_spec c sep) as [->|Hne].
    + pose proof (split_nonempty sep rest) as Hnonempty.
      split; [|split].
      * destruct (split sep rest) as [|piece pieces] eqn:E; [contradiction|].
        change (join sep ([] :: piece :: pieces))
          with (sep :: join sep (piece :: pieces)).
        rewrite IHjoin. reflexivity.
      * cbn [length]. rewrite IHlen. reflexivity.
      * constructor; [apply not_elem_of_nil | exact IHall].
    + pose proof (split_nonempty sep rest) as Hnonempty.
      destruct (split sep rest) as [|piece pieces] eqn:E; [contradiction|].
      split; [|split].
      * rewrite <- IHjoin. destruct pieces; reflexivity.
      * exact IHlen.
      * apply Forall_cons in IHall as [Hpiece Hpieces].
        constructor; [|exact Hpieces].
        intros Hin. apply elem_of_cons in Hin as [E' | Hin]; [congruence | contradiction].
Qed.

(** ** The handler, column by column *)

(** X12.  The handler returns normally exactly on the rows that have
    their three columns, and then the results are as they were or one
    record longer.  On any other row it throws and leaves the world as it
    was; when it is [name] or [surname] that is missing, the exception is
    the failed read of [charAt] in [capitalize]. *)
Theorem onData_throws_iff_column_missing
  (DB : Type) (S : MySQL DB) (data : RawRow) results (w : World DB) :
  (wellFormed data <-> exists results', fst (onData data results w) = Normal results') /\
  (forall results',
     fst (onData data results w) = Normal results' ->
     results' = results \/ exists r, results' = results ++ [r]) /\
  (~ wellFormed data ->
     exists m, onData data results w = (Throw (TypeError m), w)) /\
  (data !! "name" = None \/ data !! "surname" = None ->
     onData data results w = (Throw (cannotRead "charAt"), w)).
Proof.
  split; [|split; [|split]].
  - split.
    + intros ([n Hn] & [s Hs] & [e He]). rewrite (onData_fields data n s e) by assumption.
      destruct (test emailRegex (toLowerCase e)); eexists; reflexivity.
    + intros [results' E]. destruct (onData data results w) as [c w'] eqn:Edata.
      cbn [fst] in E. subst c. eapply onData_normal_wellFormed. exact Edata.
  - intros results' E. destruct (onData data results w) as [c w'] eqn:Edata.
    cbn [fst] in E. subst c.
    pose proof (onData_normal_wellFormed _ _ _ _ _ Edata) as ([n Hn] & [s Hs] & [e He]).
    rewrite (onData_fields data n s e) in Edata by assumption.
    destruct (test emailRegex (toLowerCase e)); injection Edata as <- _; eauto.
  - apply onData_not_wellFormed.
  - intros Hmissing. unfold onData, bind, lift.
    destruct (data !! "name") as [n|]; [|reflexivity].
    destruct Hmissing as [Hn | Hs]; [discriminate|]. rewrite Hs. reflexivity.
Qed.

Lemma onData_throws_iff_column_missing_witness :
  onData (rowWithoutName (js "doe") (js "jane@doe.org")) [] emptyWorld =
    (Throw (cannotRead "charAt"), emptyWorld).
Proof.
  apply (onData_throws_iff_column_missing UsersTable usersTable
           (rowWithoutName (js "doe") (js "jane@doe.org")) [] emptyWorld).
  left. reflexivity.
Defined.

(** X13.  Handling a record again changes nothing: when a row whose
    fields are made of units of Basic Latin and the Latin-1 Supplement is
    accepted, and its name and surname start with characters that
    upper-case to one character each, the row made of the accepted
    record's fields is accepted as that same record. *)
Theorem onData_accepts_its_records
  (DB : Type) (S : MySQL DB) (n s e : jsstring) (r : UserRecord)
  (w w' : World DB) :
  latin1 n -> latin1 s -> latin1 e ->
  singleInitial n -> singleInitial s ->
  onData (row n s e) [] w = (Normal [r], w') ->
  forall results (w2 : World DB),
    onData (row (name r) (surname r) (email r)) results w2 =
      (Normal (results ++ [r]), w2).
Proof.
  intros _ _ _ Hn Hs Eacc results w2.
  rewrite (onData_fields _ n s e) in Eacc by reflexivity.
  destruct (test emailRegex (toLowerCase e)) eqn:Etest; [|discriminate].
  injection Eacc as <- _. cbn [normalized name surname email].
  rewrite (onData_fields _ (capitalized n) (capitalized s) (toLowerCase e))
    by reflexivity.
  rewrite toLowerCase_idempotent, Etest. unfold normalized.
  rewrite !capitalized_idempotent by assumption.
  rewrite toLowerCase_idempotent. reflexivity.
Qed.

Lemma onData_accepts_its_records_witness :
  onData (row (js "Jane") (js "Doe") (js "jane.doe@example.com")) [] emptyWorld =
    (Normal [mkUser (js "Jane") (js "Doe") (js "jane.doe@example.com")], emptyWorld).
Proof.
  apply (onData_accepts_its_records UsersTable usersTable
           (js "jane") (js "DOE") (js "Jane.Doe@EXAMPLE.com")
           (mkUser (js "Jane") (js "Doe") (js "jane.doe@example.com"))
           emptyWorld emptyWorld).
  - repeat (constructor; [now vm_compute|]); constructor.
  - repeat (constructor; [now vm_compute|]); constructor.
  - repeat (constructor; [now vm_compute|]); constructor.
  - unfold singleInitial. simpl. lia.
  - unfold singleInitial. simpl. lia.
  - reflexivity.
Defined.

(** ** The loader on a table with unique emails *)

Lemma perform_insert (table : UsersTable) (user : UserRecord) :
  perform (insertStatement user) table =
    if bool_decide (email user ∈ map email table)
    then (Some (duplicateEntry (email user)), table)
    else (None, table ++ [user]).
Proof. destruct user. reflexivity. Qed.

Lemma serverAfter_unique users :
  forall table : UsersTable,
    NoDup (map email table) ->
    exists added,
      serverAfter users table = table ++ added /\
      NoDup (map email (table ++ added)) /\
      (forall r, r ∈ added -> r ∈ users) /\
      (forall u, u ∈ users -> email u ∈ map email (table ++ added)) /\
      (length (insertFailures users table) + length added = length users)%nat.
Proof.
  induction users as [|user rest IH]; intros table Hnd.
  - exists []. rewrite app_nil_r. cbn [serverAfter insertFailures length].
    repeat split; auto; intros x Hx; apply elem_of_nil in Hx; contradiction.
  - cbn [serverAfter insertFailures]. rewrite perform_insert.
    case_bool_decide as Hdup; cbn [fst snd].
    + destruct (IH table Hnd) as (added & E & Hnd' & Hfrom & Hall & Hlen).
      exists added. split; [exact E|]. split; [exact Hnd'|]. split; [|split].
      * intros r Hr. right. auto.
      * intros u Hu. apply elem_of_cons in Hu as [-> | Hu]; [|auto].
        rewrite map_app. apply elem_of_app. left. exact Hdup.
      * cbn [length app]. lia.
    + assert (Hnd1 : NoDup (map email (table ++ [user]))).
      { rewrite map_app. apply NoDup_app. split; [exact Hnd|]. split.
        - intros x Hx Hx'. apply list_elem_of_singleton in Hx'. subst x. contradiction.
        - apply NoDup_singleton. }
      destruct (IH (table ++ [user]) Hnd1) as (added & E & Hnd' & Hfrom & Hall & Hlen).
      exists (user :: added). rewrite E, <- !app_assoc. cbn [app].
      rewrite <- app_assoc in Hnd', Hall. cbn [app] in Hnd', Hall.
      split; [reflexivity|]. split; [exact Hnd'|]. split; [|split].
      * intros r Hr. apply elem_of_cons in Hr as [-> | Hr]; [left | right; auto].
      * intros u Hu. apply elem_of_cons in Hu as [-> | Hu]; [|auto].
        rewrite map_app. apply elem_of_app. right. left.
      * cbn [length app]. lia.
Qed.

(** X14.  On a table whose emails are distinct, the loader only appends:
    the rows that were there stay, the rows it adds are records of the
    batch, the emails stay distinct, the email of every record of the
    batch is in the table afterwards, and every record is either stored
    or reported: the console grows by one line per record that was not
    stored, and the closing line. *)
Theorem loader_keeps_emails_unique (users : list UserRecord) (w : World UsersTable) :
  NoDup (map email (server w)) ->
  exists added,
    server (snd (insertDataIntoDB users w)) = server w ++ added /\
    NoDup (map email (server w ++ added)) /\
    (forall r, r ∈ added -> r ∈ users) /\
    (forall u, u ∈ users -> email u ∈ map email (server w ++ added)) /\
    (length (console (snd (insertDataIntoDB users w))) + length added =
     length (console w) + length users + 1)%nat.
Proof.
  intros Hnd. rewrite insertDataIntoDB_run. cbn [snd server console].
  destruct (serverAfter_unique users (server w) Hnd)
    as (added & E & Hnd' & Hfrom & Hall & Hlen).
  exists added. rewrite E. split; [reflexivity|].
  repeat (split; [assumption|]).
  rewrite !length_app. cbn [length]. lia.
Qed.

Lemma loader_keeps_emails_unique_witness :
  exists added,
    server (snd (insertDataIntoDB
                   [mkUser (js "Jane") (js "Doe") (js "jane@doe.org");
                    mkUser (js "Janet") (js "Doe") (js "jane@doe.org");
                    mkUser (js "Ann") (js "Lee") (js "ann@lee.org")] emptyWorld)) =
      server emptyWorld ++ added /\
    NoDup (map email (server emptyWorld ++ added)).
Proof.
  destruct (loader_keeps_emails_unique
              [mkUser (js "Jane") (js "Doe") (js "jane@doe.org");
               mkUser (js "Janet") (js "Doe") (js "jane@doe.org");
               mkUser (js "Ann") (js "Lee") (js "ann@lee.org")] emptyWorld)
    as (added & E & Hnd & _).
  - simpl. apply NoDup_nil_2.
  - exists added. split; assumption.
Defined.

(** ** A failing file stream, and the second check *)

(** X15.  When the file stream under the parser fails after rows that
    have their columns, the ['error'] handler does not see it: the run
    dies of the uncaught error.  Nothing is inserted, no "Error reading
    the CSV file" line is printed, and the connection is not ended. *)
Theorem main_read_failure_uncaught
  (DB : Type) (S : MySQL DB) (args : argv.t) (w : World DB) (path : jsstring)
  (e : JsError) :
  createConnection (connectionOf args) (server w) = None ->
  argv.create_table args = false ->
  argv.file args = Some path -> path <> [] ->
  Forall wellFormed (rows (csvFiles w path)) ->
  ending (csvFiles w path) = ReadFailed e ->
  main args w = (Uncaught e, printAll (rejections (rows (csvFiles w path))) w).
Proof.
  intros Hc Hct Hfile Hpath Hwf Hend. rewrite main_connected by assumption.
  rewrite Hct, Hfile. destruct path as [|c path]; [contradiction|].
  cbn [truthy default]. unfold id, tryFinally, processCSVFile, bind.
  rewrite accumulated_wellFormed by assumption.
  fold (rejections (rows (csvFiles w (c :: path)))).
  cbn [csvFiles printAll]. rewrite Hend. reflexivity.
Qed.

Lemma main_read_failure_uncaught_witness :
  main fileArgs readFailedWorld =
    (Uncaught (StreamError (js "EIO: i/o error, read")),
     printAll [invalidEmailFormat (js "not-an-email")] readFailedWorld).
Proof.
  apply (main_read_failure_uncaught UsersTable usersTable fileArgs readFailedWorld
           (js "users.csv")); try reflexivity.
  - discriminate.
  - repeat constructor; eexists; reflexivity.
Defined.

(** X16.  The second operand of [&&] never changes the verdict: on every
    string that the pattern matches, [split('@')[1].includes('.')] is
    true, so the validator answers what the pattern answers. *)
Theorem domainIncludesDot_redundant (email : jsstring) :
  test emailRegex email = true ->
  domainIncludesDot email = Normal true /\
  validateEmail email = Normal (test emailRegex email).
Proof.
  intros E. split; [|apply validateEmail_test].
  apply emailRegex_shape, shape_split in E as (loc & domain & _ & _ & Hdot & Hsplit).
  unfold domainIncludesDot. rewrite Hsplit. cbn [lookup list_lookup].
  apply includes_spec in Hdot. rewrite Hdot. reflexivity.
Qed.

Lemma domainIncludesDot_redundant_witness :
  domainIncludesDot (js "a.b@c.d") = Normal true.
Proof. exact (proj1 (domainIncludesDot_redundant (js "a.b@c.d") eq_refl)). Defined.
